(** * Field resolution and geometry reconstruction of the death-certificate
      OCR pipeline ([src/lib/deathCertPipeline.ts])

    The development embeds the functions of the pipeline as Rocq functions
    and proves the properties stated of them: the line serializer, the
    response validation, the coordinate lookup, the grouping, the union
    bounding box, the normalizer and the orchestrator.  The mapping of the
    earlier version of the pipeline and the handlers of the page
    ([src/app/page.tsx]) are embedded as well.

    Conventions of the embedding.
    - A JavaScript [number] is an exact rational, or one of the special
      values NaN, +Infinity, -Infinity.  Arithmetic on finite values is
      exact: rounding to binary64, overflow and the sign of zero are not
      represented.
    - [undefined] is [None]; an array is a [list]; [arr[i]] is [arr !! i].
    - A string is a [string], a sequence of bytes.
    - A [Map] whose iteration order is observed is an association list in
      insertion order; a [Map] that is only read with [get] is a [gmap].
    - A function that can throw returns a [completion].
    - The request to the extraction model is an external call: the text of
      its response is an input of the embedding.  The OCR result is a
      constant of a module outside the sources at hand: it is a parameter. *)

From Stdlib Require Import ZArith QArith Qminmax Lqa String Ascii List.
From stdpp Require Import base option list strings gmap pretty.

Local Open Scope string_scope.

(** ** JavaScript values and built-ins used by the pipeline *)

Module JS.

(** *** Numbers *)

Inductive number : Type :=
  | NaN
  | NegInf
  | Fin (q : Q)
  | PosInf.

Definition of_Z (z : Z) : number := Fin (inject_Z z).

Definition isNaN (a : number) : bool :=
  match a with NaN => true | _ => false end.

Definition isFinite (a : number) : bool :=
  match a with Fin _ => true | _ => false end.

(** [a < b] and [a <= b]; every comparison with NaN is false. *)
Definition num_ltb (a b : number) : bool :=
  match a, b with
  | NaN, _ | _, NaN => false
  | _, NegInf => false
  | NegInf, _ => true
  | PosInf, _ => false
  | Fin _, PosInf => true
  | Fin p, Fin q => negb (Qle_bool q p)
  end.

Definition num_leb (a b : number) : bool :=
  match a, b with
  | NaN, _ | _, NaN => false
  | NegInf, _ => true
  | _, PosInf => true
  | Fin p, Fin q => Qle_bool p q
  | _, _ => false
  end.

Definition num_lt (a b : number) : Prop := num_ltb a b = true.
Definition num_le (a b : number) : Prop := num_leb a b = true.

(** Numeric equality ([===] on numbers): NaN differs from everything. *)
Definition num_eqb (a b : number) : bool :=
  match a, b with
  | NegInf, NegInf | PosInf, PosInf => true
  | Fin p, Fin q => Qeq_bool p q
  | _, _ => false
  end.

Definition num_eq (a b : number) : Prop := num_eqb a b = true.

(** SameValueZero, the key equality of [Map]: as [===] but NaN equals NaN. *)
Definition sameValueZero (a b : number) : bool :=
  match a, b with
  | NaN, NaN => true
  | _, _ => num_eqb a b
  end.

Definition num_neg (a : number) : number :=
  match a with
  | NaN => NaN
  | NegInf => PosInf
  | PosInf => NegInf
  | Fin q => Fin (- q)
  end.

Definition num_add (a b : number) : number :=
  match a, b with
  | NaN, _ | _, NaN => NaN
  | PosInf, NegInf | NegInf, PosInf => NaN
  | PosInf, _ | _, PosInf => PosInf
  | NegInf, _ | _, NegInf => NegInf
  | Fin p, Fin q => Fin (p + q)
  end.

Definition num_sub (a b : number) : number := num_add a (num_neg b).

(** Division.  A zero divisor is the positive zero. *)
Definition num_div (a b : number) : number :=
  match a, b with
  | NaN, _ | _, NaN => NaN
  | Fin p, Fin q =>
      if Qeq_bool q 0 then
        if Qeq_bool p 0 then NaN
        else if Qle_bool 0 p then PosInf else NegInf
      else Fin (p / q)
  | Fin _, _ => Fin 0
  | PosInf, Fin q => if Qle_bool 0 q then PosInf else NegInf
  | NegInf, Fin q => if Qle_bool 0 q then NegInf else PosInf
  | _, _ => NaN
  end.

(** ToNumber on a value that is a number or [undefined]. *)
Definition ToNumber (v : option number) : number :=
  match v with
  | Some n => n
  | None => NaN
  end.

(** [Math.min(...args)] and [Math.max(...args)]: the arguments are coerced
    with ToNumber; NaN if any is NaN; otherwise the first least (greatest)
    argument, and +Infinity (-Infinity) when there is none. *)
Definition Math_min_step (lowest n : number) : number :=
  if isNaN lowest || isNaN n then NaN
  else if num_ltb n lowest then n else lowest.

Definition Math_max_step (highest n : number) : number :=
  if isNaN highest || isNaN n then NaN
  else if num_ltb highest n then n else highest.

Definition Math_min (args : list (option number)) : number :=
  foldl Math_min_step PosInf (ToNumber <$> args).

Definition Math_max (args : list (option number)) : number :=
  foldl Math_max_step NegInf (ToNumber <$> args).

(** *** Number to string

    [Number::toString] on the values the pipeline prints (pixel coordinates
    and group ids read from JSON text): an integer prints its decimal
    digits, a finite decimal fraction prints [digits.digits] without
    trailing zeros.  Exponent notation (used by JavaScript below 1e-6 and
    from 1e21) is not represented.  A rational with no finite decimal
    expansion is the value of no JSON literal; it prints as a fraction. *)

Fixpoint decimal_places_from (fuel : nat) (k : nat) (d : positive) : option nat :=
  if ((10 ^ Z.of_nat k) mod Z.pos d =? 0)%Z then Some k
  else match fuel with
       | O => None
       | S fuel' => decimal_places_from fuel' (S k) d
       end.

Definition decimal_places (d : positive) : option nat :=
  decimal_places_from (Pos.size_nat d) 0 d.

Definition pad_zeros (k : nat) (s : string) : string :=
  string_of_list_ascii (replicate (k - String.length s) "0"%char) +:+ s.

Definition Q_toString (q : Q) : string :=
  let n := Qnum q in
  let d := Qden q in
  match d with
  | xH => pretty n
  | _ =>
      match decimal_places d with
      | Some k =>
          let scale := (10 ^ Z.of_nat k)%Z in
          let m := (Z.abs n * scale / Z.pos d)%Z in
          (if decide (n < 0)%Z then "-" else "")
            +:+ pretty (m / scale)%Z +:+ "."
            +:+ pad_zeros k (pretty (m mod scale)%Z)
      | None => pretty n +:+ "/" +:+ pretty (Z.pos d)
      end
  end.

Definition Number_toString (a : number) : string :=
  match a with
  | NaN => "NaN"
  | NegInf => "-Infinity"
  | PosInf => "Infinity"
  | Fin q => Q_toString (Qred q)
  end.

(** *** Arrays and strings *)

(** [Array.prototype.join(sep)] on an array of strings. *)
Fixpoint join (sep : string) (xs : list string) : string :=
  match xs with
  | [] => ""
  | [x] => x
  | x :: rest => x +:+ sep +:+ join sep rest
  end.

(** *** [Map] with number keys, in insertion order *)

Fixpoint Map_get {V} (m : list (number * V)) (key : number) : option V :=
  match m with
  | [] => None
  | (k, v) :: rest => if sameValueZero k key then Some v else Map_get rest key
  end.

(** [set] on a present key replaces the value where the entry stands;
    on an absent key it appends the entry. *)
Fixpoint Map_set {V} (m : list (number * V)) (key : number) (value : V)
    : list (number * V) :=
  match m with
  | [] => [(key, value)]
  | (k, v) :: rest =>
      if sameValueZero k key then (k, value) :: rest
      else (k, v) :: Map_set rest key value
  end.

(** [Boolean(o)] of an object. *)
Definition Boolean_object {A} (o : A) : bool := true.

(** *** Completions *)

Inductive error : Type :=
  | SyntaxError
  | TypeError.

Inductive completion (A : Type) : Type :=
  | Return (a : A)
  | Throw (e : error).
Global Arguments Return {A} a.
Global Arguments Throw {A} e.

Definition bind {A B} (c : completion A) (k : A → completion B) : completion B :=
  match c with
  | Return a => k a
  | Throw e => Throw e
  end.

(** *** JSON values and [JSON.parse] *)

#[local] Set Warnings "-register-all".
Inductive json : Type :=
  | JNull
  | JBool (b : bool)
  | JNumber (n : number)
  | JString (s : string)
  | JArray (items : list json)
  | JObject (members : list (string * json)).

(** Property read [obj[key]]: of duplicate members the last one counts. *)
Fixpoint get_member (key : string) (members : list (string * json)) : option json :=
  match members with
  | [] => None
  | (k, v) :: rest =>
      match get_member key rest with
      | Some v' => Some v'
      | None => if decide (k = key) then Some v else None
      end
  end.

Definition is_ws (c : ascii) : bool :=
  match N_of_ascii c with
  | 32%N | 9%N | 10%N | 13%N => true
  | _ => false
  end.

Fixpoint skip_ws (s : string) : string :=
  match s with
  | String c rest => if is_ws c then skip_ws rest else s
  | EmptyString => s
  end.

Fixpoint strip_prefix (p s : string) : option string :=
  match p, s with
  | EmptyString, _ => Some s
  | String a p', String b s' => if decide (a = b) then strip_prefix p' s' else None
  | String _ _, EmptyString => None
  end.

Definition digit_of (c : ascii) : option Z :=
  let n := Z.of_N (N_of_ascii c) in
  if decide (48 ≤ n ≤ 57)%Z then Some (n - 48)%Z else None.

Definition hex_of (c : ascii) : option N :=
  let n := N_of_ascii c in
  if decide (48 ≤ n ≤ 57)%N then Some (n - 48)%N
  else if decide (65 ≤ n ≤ 70)%N then Some (n - 55)%N
  else if decide (97 ≤ n ≤ 102)%N then Some (n - 87)%N
  else None.

(** The longest prefix of digits: its value continuing [acc], its length,
    and the rest of the input. *)
Fixpoint take_digits (s : string) (acc : Z) (count : nat) : Z * nat * string :=
  match s with
  | String c rest =>
      match digit_of c with
      | Some d => take_digits rest (10 * acc + d)%Z (S count)
      | None => (acc, count, s)
      end
  | EmptyString => (acc, count, s)
  end.

(** The value [mantissa * 10 ^ exponent]. *)
Definition decimal_value (mantissa exponent : Z) : Q :=
  if decide (0 ≤ exponent)%Z then inject_Z (mantissa * 10 ^ exponent)
  else Qmake mantissa (Z.to_pos (10 ^ (- exponent))).

(** number = [ "-" ] int [ frac ] [ exp ]; no leading zero in a non-zero int.
    The value of the literal is kept exactly; [JSON.parse] rounds it to the
    nearest binary64 number, and to an infinity on overflow. *)
Definition parse_number (s : string) : option (number * string) :=
  let '(negative, s1) :=
    match s with
    | String "-" rest => (true, rest)
    | _ => (false, s)
    end in
  let '(int, int_len, s2) := take_digits s1 0%Z 0 in
  if decide (int_len = 0%nat) then None
  else if decide (1 < int_len ∧ strip_prefix "0" s1 ≠ None)%nat then None
  else
    let frac :=
      match s2 with
      | String "." rest =>
          let '(m, len, s3) := take_digits rest int 0 in
          if decide (len = 0%nat) then None else Some (m, len, s3)
      | _ => Some (int, 0%nat, s2)
      end in
    match frac with
    | None => None
    | Some (mantissa, frac_len, s3) =>
        let exp :=
          match s3 with
          | String c rest =>
              if decide (c = "e" ∨ c = "E")%char then
                let '(exp_neg, s4) :=
                  match rest with
                  | String "-" r => (true, r)
                  | String "+" r => (false, r)
                  | _ => (false, rest)
                  end in
                let '(e, len, s5) := take_digits s4 0%Z 0 in
                if decide (len = 0%nat) then None
                else Some (if exp_neg then (- e)%Z else e, s5)
              else Some (0%Z, s3)
          | EmptyString => Some (0%Z, s3)
          end in
        match exp with
        | None => None
        | Some (e, rest) =>
            let m := if negative then (- mantissa)%Z else mantissa in
            Some (Fin (decimal_value m (e - Z.of_nat frac_len)), rest)
        end
    end.

(** UTF-8 bytes of a code point. *)
Definition utf8 (cp : N) : string :=
  let byte (n : N) := ascii_of_N n in
  (if decide (cp < 128) then String (byte cp) ""
   else if decide (cp < 2048) then
     String (byte (192 + cp / 64)) (String (byte (128 + cp mod 64)) "")
   else if decide (cp < 65536) then
     String (byte (224 + cp / 4096))
       (String (byte (128 + (cp / 64) mod 64)) (String (byte (128 + cp mod 64)) ""))
   else
     String (byte (240 + cp / 262144))
       (String (byte (128 + (cp / 4096) mod 64))
          (String (byte (128 + (cp / 64) mod 64))
             (String (byte (128 + cp mod 64)) ""))))%N.

(** Four hexadecimal digits. *)
Definition parse_hex4 (s : string) : option (N * string) :=
  match s with
  | String a (String b (String c (String d rest))) =>
      match hex_of a, hex_of b, hex_of c, hex_of d with
      | Some x3, Some x2, Some x1, Some x0 =>
          Some (((x3 * 16 + x2) * 16 + x1) * 16 + x0, rest)%N
      | _, _, _, _ => None
      end
  | _ => None
  end.

(** A \u escape, after the [u]: a high surrogate followed by an escaped low
    surrogate is one code point. *)
Definition parse_unicode_escape (s : string) : option (string * string) :=
  match parse_hex4 s with
  | None => None
  | Some (hi, rest) =>
      let single := Some (utf8 hi, rest) in
      if decide (55296 ≤ hi < 56320)%N then
        match rest with
        | String "\" (String "u" rest') =>
            match parse_hex4 rest' with
            | Some (lo, rest'') =>
                if decide (56320 ≤ lo < 57344)%N
                then Some (utf8 (65536 + (hi - 55296) * 1024 + (lo - 56320))%N, rest'')
                else single
            | None => single
            end
        | _ => single
        end
      else single
  end.

(** The characters of a string literal after its opening quote, up to and
    including the closing quote. *)
Fixpoint parse_chars (fuel : nat) (s : string) (acc : string) : option (string * string) :=
  match fuel with
  | O => None
  | S fuel' =>
      match s with
      | EmptyString => None
      | String c rest =>
          if decide (c = "034"%char) then Some (acc, rest)
          else if decide (c = "\"%char) then
            match rest with
            | String e rest' =>
                let simple (ch : ascii) := parse_chars fuel' rest' (acc +:+ String ch "") in
                match N_of_ascii e with
                | 34%N => simple e
                | 92%N => simple e
                | 47%N => simple e
                | 98%N => simple (ascii_of_N 8)
                | 102%N => simple (ascii_of_N 12)
                | 110%N => simple (ascii_of_N 10)
                | 114%N => simple (ascii_of_N 13)
                | 116%N => simple (ascii_of_N 9)
                | 117%N =>
                    match parse_unicode_escape rest' with
                    | Some (bytes, rest'') => parse_chars fuel' rest'' (acc +:+ bytes)
                    | None => None
                    end
                | _ => None
                end
            | EmptyString => None
            end
          else if decide (N_of_ascii c < 32)%N then None
          else parse_chars fuel' rest (acc +:+ String c "")
      end
  end.

Definition parse_string (s : string) : option (string * string) :=
  parse_chars (String.length s) s "".

Section parse_sequences.
Variable parse_value : string → option (json * string).

(** value *( "," value ) "]" *)
Fixpoint parse_elements (fuel : nat) (s : string) : option (list json * string) :=
  match fuel with
  | O => None
  | S fuel' =>
      match parse_value s with
      | None => None
      | Some (v, rest) =>
          match skip_ws rest with
          | String "," rest' =>
              match parse_elements fuel' rest' with
              | Some (vs, rest'') => Some (v :: vs, rest'')
              | None => None
              end
          | String "]" rest' => Some ([v], rest')
          | _ => None
          end
      end
  end.

(** string ":" value *( "," string ":" value ) "}" *)
Fixpoint parse_members (fuel : nat) (s : string)
    : option (list (string * json) * string) :=
  match fuel with
  | O => None
  | S fuel' =>
      match skip_ws s with
      | String "034"%char rest =>
          match parse_string rest with
          | None => None
          | Some (key, rest1) =>
              match skip_ws rest1 with
              | String ":" rest2 =>
                  match parse_value rest2 with
                  | None => None
                  | Some (v, rest3) =>
                      match skip_ws rest3 with
                      | String "," rest4 =>
                          match parse_members fuel' rest4 with
                          | Some (ms, rest5) => Some ((key, v) :: ms, rest5)
                          | None => None
                          end
                      | String "}" rest4 => Some ([(key, v)], rest4)
                      | _ => None
                      end
                  end
              | _ => None
              end
          end
      | _ => None
      end
  end.
End parse_sequences.

(** One JSON value, with leading whitespace. *)
Fixpoint parse_value (fuel : nat) (s : string) : option (json * string) :=
  match fuel with
  | O => None
  | S fuel' =>
      match skip_ws s with
      | EmptyString => None
      | String c rest as s' =>
          match N_of_ascii c with
          | 110%N => pair JNull <$> strip_prefix "null" s'
          | 116%N => pair (JBool true) <$> strip_prefix "true" s'
          | 102%N => pair (JBool false) <$> strip_prefix "false" s'
          | 34%N => prod_map JString id <$> parse_string rest
          | 91%N =>
              match skip_ws rest with
              | String "]" rest' => Some (JArray [], rest')
              | _ => prod_map JArray id <$> parse_elements (parse_value fuel') fuel' rest
              end
          | 123%N =>
              match skip_ws rest with
              | String "}" rest' => Some (JObject [], rest')
              | _ => prod_map JObject id <$> parse_members (parse_value fuel') fuel' rest
              end
          | _ => prod_map JNumber id <$> parse_number s'
          end
      end
  end.

(** [JSON.parse(text)]: one value, nothing but whitespace after it; a
    SyntaxError otherwise.  Every call of [parse_value] consumes a character
    of the input, so its length bounds the depth of the recursion. *)
Definition JSON_parse (text : string) : completion json :=
  match parse_value (S (String.length text)) text with
  | Some (v, rest) =>
      match skip_ws rest with
      | EmptyString => Return v
      | String _ _ => Throw SyntaxError
      end
  | None => Throw SyntaxError
  end.

End JS.

Declare Scope number_scope.
Delimit Scope number_scope with num.
Bind Scope number_scope with JS.number.
Infix "<=" := JS.num_le : number_scope.
Infix "<" := JS.num_lt : number_scope.
Infix "==" := JS.num_eq : number_scope.
Infix "+" := JS.num_add : number_scope.
Infix "-" := JS.num_sub : number_scope.
Infix "/" := JS.num_div : number_scope.
Notation "0" := (JS.of_Z 0) : number_scope.
Notation "1" := (JS.of_Z 1) : number_scope.



Import JS.

Definition newline : string := String "010"%char "".

(** ** Data model *)

Record Highlight : Type := {
  id : string;
  x : number;
  y : number;
  width : number;
  height : number;
  text : string;
}.

Record OcrWord : Type := {
  content : string;
  polygon : list number;
}.

Definition Coordinate : Type := number * number.

Record FieldMatch : Type := {
  word : string;
  coordinate : Coordinate;
  groupId : number;
}.

Record ParsedFieldValues : Type := {
  name : list FieldMatch;
  dateOfBirth : list FieldMatch;
  address : list FieldMatch;
  causeOfDeath : list FieldMatch;
}.

(** The OCR result [tmpAzureOcr] is a constant of a module that is not part
    of the sources at hand; the pipeline takes it as a parameter.  Of its
    shape the code uses [analyzeResult.pages[0]] with [width], [height] and
    [words]. *)
Record Page : Type := {
  pageWidth : number;
  pageHeight : number;
  pageWords : list OcrWord;
}.

Record AzureOcr : Type := {
  analyzeResult_pages : list Page;
}.

(** ** Schemas *)

Definition z_string (v : option json) : option string :=
  match v with
  | Some (JString s) => Some s
  | _ => None
  end.

Definition z_number (v : option json) : option number :=
  match v with
  | Some (JNumber n) => if isNaN n then None else Some n
  | _ => None
  end.

(** [z.tuple([z.number(), z.number()])]: an array of exactly two numbers. *)
Definition z_tuple_number_number (v : option json) : option Coordinate :=
  match v with
  | Some (JArray [a; b]) =>
      match z_number (Some a), z_number (Some b) with
      | Some x, Some y => Some (x, y)
      | _, _ => None
      end
  | _ => None
  end.

(** [z.object({ word, coordinate, groupId })]; unknown keys are stripped. *)
Definition fieldItem (v : json) : option FieldMatch :=
  match v with
  | JObject members =>
      match z_string (get_member "word" members),
            z_tuple_number_number (get_member "coordinate" members),
            z_number (get_member "groupId" members) with
      | Some w, Some c, Some g => Some {| word := w; coordinate := c; groupId := g |}
      | _, _, _ => None
      end
  | _ => None
  end.

(** [z.array(...)]: every item must validate. *)
Definition fieldItemSchema (v : option json) : option (list FieldMatch) :=
  match v with
  | Some (JArray items) => mapM fieldItem items
  | _ => None
  end.

(** [parsedFieldsSchema.safeParse(v)]: [Some data] on success. *)
Definition parsedFieldsSchema_safeParse (v : json) : option ParsedFieldValues :=
  match v with
  | JObject members =>
      match fieldItemSchema (get_member "name" members),
            fieldItemSchema (get_member "dateOfBirth" members),
            fieldItemSchema (get_member "address" members),
            fieldItemSchema (get_member "causeOfDeath" members) with
      | Some n, Some d, Some a, Some c =>
          Some {| name := n; dateOfBirth := d; address := a; causeOfDeath := c |}
      | _, _, _, _ => None
      end
  | _ => None
  end.

(** ** The pipeline *)

Definition getOcrWordsAndPage (tmpAzureOcr : AzureOcr)
    : completion (Page * list OcrWord) :=
  match analyzeResult_pages tmpAzureOcr !! 0%nat with
  | Some page => Return (page, pageWords page)
  | None => Throw TypeError
  end.

(** The line of one word: [`${word.content}:${x}, ${y}`]. *)
Definition ocrLine (word : OcrWord) : string :=
  let x := default 0%num (polygon word !! 0%nat) in
  let y := default 0%num (polygon word !! 1%nat) in
  content word +:+ ":" +:+ Number_toString x +:+ ", " +:+ Number_toString y.

Definition toTopLeftOcrLines (words : list OcrWord) : string :=
  join newline (ocrLine <$> words).

Definition allXs (groupWords : list OcrWord) : list (option number) :=
  groupWords ≫= λ word,
    [polygon word !! 0%nat; polygon word !! 2%nat;
     polygon word !! 4%nat; polygon word !! 6%nat].

Definition allYs (groupWords : list OcrWord) : list (option number) :=
  groupWords ≫= λ word,
    [polygon word !! 1%nat; polygon word !! 3%nat;
     polygon word !! 5%nat; polygon word !! 7%nat].

Definition minX (groupWords : list OcrWord) : number := Math_min (allXs groupWords).
Definition maxX (groupWords : list OcrWord) : number := Math_max (allXs groupWords).
Definition minY (groupWords : list OcrWord) : number := Math_min (allYs groupWords).
Definition maxY (groupWords : list OcrWord) : number := Math_max (allYs groupWords).

Definition wordsToHighlight (groupWords : list OcrWord)
    (pageWidth pageHeight : number) (text id : string) : Highlight :=
  {| id := id;
     text := text;
     x := minX groupWords / pageWidth;
     y := minY groupWords / pageHeight;
     width := (maxX groupWords - minX groupWords) / pageWidth;
     height := (maxY groupWords - minY groupWords) / pageHeight |}.

Definition normalizeHighlight (highlight : Highlight) : Highlight :=
  let x' := Math_max [Some 0%num; Some (Math_min [Some 1%num; Some (x highlight)])] in
  let y' := Math_max [Some 0%num; Some (Math_min [Some 1%num; Some (y highlight)])] in
  let width' :=
    Math_max [Some 0%num; Some (Math_min [Some (1 - x')%num; Some (width highlight)])] in
  let height' :=
    Math_max [Some 0%num; Some (Math_min [Some (1 - y')%num; Some (height highlight)])] in
  {| id := id highlight;
     text := text highlight;
     x := x';
     y := y';
     width := width';
     height := height' |}.

Definition normalizeHighlights (highlights : list Highlight) : list Highlight :=
  normalizeHighlight <$> highlights.

(** The key [`${word.polygon[0] ?? 0},${word.polygon[1] ?? 0}`]. *)
Definition topLeftKey (word : OcrWord) : string :=
  Number_toString (default 0%num (polygon word !! 0%nat)) +:+ ","
    +:+ Number_toString (default 0%num (polygon word !! 1%nat)).

(** The key [`${x},${y}`] of a mention's coordinate. *)
Definition coordinateKey (value : FieldMatch) : string :=
  let '(x, y) := coordinate value in
  Number_toString x +:+ "," +:+ Number_toString y.

(** [new Map(words.map(word => [key, word]))]: the entries are set in list
    order. *)
Definition wordByTopLeft (words : list OcrWord) : gmap string OcrWord :=
  foldl (λ m word, <[topLeftKey word := word]> m) ∅ words.

Record Group : Type := {
  words : list string;
  ocrWords : list OcrWord;
}.

(** The body of [values.forEach]; [existing.words.push] and
    [existing.ocrWords.push] mutate the group held by the map. *)
Definition addMention (byTopLeft : gmap string OcrWord)
    (groups : list (number * Group)) (value : FieldMatch) : list (number * Group) :=
  match byTopLeft !! coordinateKey value with
  | None => groups
  | Some matchedWord =>
      match Map_get groups (groupId value) with
      | Some existing =>
          Map_set groups (groupId value)
            {| words := (words existing ++ [word value])%list;
               ocrWords := (ocrWords existing ++ [matchedWord])%list |}
      | None =>
          Map_set groups (groupId value)
            {| words := [word value]; ocrWords := [matchedWord] |}
      end
  end.

(** The map [groups] once [values.forEach] is done. *)
Definition collectGroups (values : list FieldMatch) (ocr : list OcrWord)
    : list (number * Group) :=
  foldl (addMention (wordByTopLeft ocr)) [] values.

Definition groupHighlight (fieldLabel fieldKey : string)
    (pageWidth pageHeight : number) (entry : number * Group) : Highlight :=
  let '(groupId, group) := entry in
  wordsToHighlight (ocrWords group) pageWidth pageHeight
    (fieldLabel +:+ ": " +:+ join " " (words group))
    ("h-" +:+ fieldKey +:+ "-g-" +:+ Number_toString groupId).

Definition mapFieldListToHighlights (fieldLabel fieldKey : string)
    (values : list FieldMatch) (ocr : list OcrWord)
    (pageWidth pageHeight : number) : list Highlight :=
  List.filter Boolean_object
    (groupHighlight fieldLabel fieldKey pageWidth pageHeight
       <$> collectGroups values ocr).

Definition mapFieldsToHighlights (fields : ParsedFieldValues) (ocr : list OcrWord)
    (pageWidth pageHeight : number) : list Highlight :=
  let highlights :=
    (mapFieldListToHighlights "Name" "name" (name fields) ocr pageWidth pageHeight
     ++ mapFieldListToHighlights "Date of Birth" "dateOfBirth" (dateOfBirth fields)
          ocr pageWidth pageHeight
     ++ mapFieldListToHighlights "Address" "address" (address fields)
          ocr pageWidth pageHeight
     ++ mapFieldListToHighlights "Cause of Death" "causeOfDeath" (causeOfDeath fields)
          ocr pageWidth pageHeight)%list in
  normalizeHighlights highlights.

(** The request to the extraction model is an external call; the text of
    its response ([response.text], a string or [undefined]) is an input of
    the embedding.  [ocrLineText] only feeds the prompt. *)
Definition extractFieldsFromGemini (ocrLineText : string)
    (response_text : option string) : completion (option ParsedFieldValues) :=
  match response_text with
  | None => Return None
  | Some EmptyString => Return None
  | Some text =>
      bind (JSON_parse text) (λ json,
        match parsedFieldsSchema_safeParse json with
        | None => Return None
        | Some data => Return (Some data)
        end)
  end.

Definition runDeathCertificatePipeline (tmpAzureOcr : AzureOcr)
    (response_text : option string) : completion (list Highlight) :=
  bind (getOcrWordsAndPage tmpAzureOcr) (λ '(page, ocr),
    let ocrLineText := toTopLeftOcrLines ocr in
    bind (extractFieldsFromGemini ocrLineText response_text) (λ fields,
      match fields with
      | None => Return []
      | Some fields =>
          Return (mapFieldsToHighlights fields ocr (pageWidth page) (pageHeight page))
      end)).

(** ** Vocabulary of the properties *)

(** *** Boxes in the unit square *)

(** No geometry field is NaN. *)
Definition numeric (h : Highlight) : Prop :=
  isNaN (x h) = false ∧ isNaN (y h) = false
  ∧ isNaN (width h) = false ∧ isNaN (height h) = false.

(** The box lies in the unit square. *)
Definition contained (h : Highlight) : Prop :=
  (0 <= x h)%num ∧ (0 <= y h)%num
  ∧ (x h + width h <= 1)%num ∧ (y h + height h <= 1)%num.

(** *** Quadrilaterals and their corners *)

(** All arguments are finite numbers. *)
Definition finite_args (args : list (option number)) : Prop :=
  Forall (λ o, ∃ q, o = Some (Fin q)) args.

(** A word whose polygon is a quadrilateral: eight finite numbers. *)
Definition quad (word : OcrWord) : Prop :=
  length (polygon word) = 8%nat ∧ Forall (λ n, isFinite n = true) (polygon word).

(** [(px, py)] is one of the four corners of the word's quadrilateral. *)
Definition corner (word : OcrWord) (px py : number) : Prop :=
  ∃ i : nat, (i < 4)%nat
    ∧ polygon word !! (2 * i)%nat = Some px
    ∧ polygon word !! (2 * i + 1)%nat = Some py.

Definition corner_x (groupWords : list OcrWord) (v : number) : Prop :=
  ∃ word py, word ∈ groupWords ∧ corner word v py.

Definition corner_y (groupWords : list OcrWord) (v : number) : Prop :=
  ∃ word px, word ∈ groupWords ∧ corner word px v.

Definition is_least (m : number) (P : number → Prop) : Prop :=
  P m ∧ ∀ v, P v → (m <= v)%num.

Definition is_greatest (m : number) (P : number → Prop) : Prop :=
  P m ∧ ∀ v, P v → (v <= m)%num.

(** *** Groups and their order *)

Definition keys {V} (m : list (number * V)) : list number := m.*1.

(** Scanning group ids from the left: an id is appended unless an equal
    one was met before. *)
Definition addKey (ks : list number) (g : number) : list number :=
  if existsb (λ k, sameValueZero k g) ks then ks else (ks ++ [g])%list.

(** What holds of every group of the map while [values.forEach] runs. *)
Definition group_ok (ocr : list OcrWord) (group : Group) : Prop :=
  ocrWords group ≠ []
  ∧ length (words group) = length (ocrWords group)
  ∧ Forall (λ w, w ∈ ocr) (ocrWords group).

(** The identifier [`h-${fieldKey}-g-${groupId}`]. *)
Definition highlightId (fieldKey : string) (groupId : number) : string :=
  "h-" +:+ fieldKey +:+ "-g-" +:+ Number_toString groupId.

(** The mention's coordinate key is the top-left key of some OCR word. *)
Definition resolves (ocr : list OcrWord) (value : FieldMatch) : bool :=
  match wordByTopLeft ocr !! coordinateKey value with
  | Some _ => true
  | None => false
  end.

(** The distinct group ids of a list, each at its first appearance. *)
Fixpoint firstAppearance (ids : list number) : list number :=
  match ids with
  | [] => []
  | g :: rest =>
      g :: List.filter (λ g', negb (sameValueZero g g')) (firstAppearance rest)
  end.

(** The ids of one category's highlights: one per distinct group id among
    the mentions that resolve, at the first such mention. *)
Definition categoryIds (fieldKey : string) (values : list FieldMatch)
    (ocr : list OcrWord) : list string :=
  highlightId fieldKey
    <$> firstAppearance (groupId <$> List.filter (resolves ocr) values).

(** The order the claim words: first appearance of the group id in the
    category's mention list, resolved or not, over the groups that exist. *)
Definition appearanceIds (fieldKey : string) (values : list FieldMatch)
    (ocr : list OcrWord) : list string :=
  highlightId fieldKey
    <$> List.filter
          (λ g, existsb (λ value, resolves ocr value && sameValueZero g (groupId value))
                  values)
          (firstAppearance (groupId <$> values)).

(** *** The serialization contract *)

(** The serialization as the contract words it: nothing for no word, the
    line [content:x, y] of a single word, and for more words the line of
    the first, a newline, and the serialization of the others. *)
Fixpoint serializedLines (words : list OcrWord) : string :=
  match words with
  | [] => ""
  | word :: rest =>
      let line :=
        content word +:+ ":"
          +:+ Number_toString (default 0%num (polygon word !! 0%nat)) +:+ ", "
          +:+ Number_toString (default 0%num (polygon word !! 1%nat)) in
      match rest with
      | [] => line
      | _ :: _ => line +:+ newline +:+ serializedLines rest
      end
  end.

(** *** Sample data *)

Definition word_of (content : string) (corners : list Z) : OcrWord :=
  {| content := content; polygon := of_Z <$> corners |}.

Definition mention (word : string) (cx cy g : Z) : FieldMatch :=
  {| word := word; coordinate := (of_Z cx, of_Z cy); groupId := of_Z g |}.

Definition out_of_page_boxes : list Highlight :=
  [ {| id := "a"; text := "A"; x := Fin (-1 # 2); y := Fin (3 # 2);
       width := Fin 2; height := Fin (1 # 4) |};
    {| id := "b"; text := "B"; x := Fin (3 # 4); y := NegInf;
       width := PosInf; height := Fin (-7) |} ].

(** Two words far apart on the page, the second above and left of the first. *)
Definition scattered_words : list OcrWord :=
  [ word_of "DOE" [300; 500; 360; 502; 358; 530; 299; 528]%Z;
    word_of "JOHN" [10; 20; 60; 20; 60; 40; 10; 40]%Z ].

Definition sample_ocr : list OcrWord :=
  [ word_of "JOHN" [10; 20; 60; 20; 60; 40; 10; 40]%Z;
    word_of "DOE" [70; 20; 120; 22; 119; 41; 70; 40]%Z;
    word_of "1970" [300; 500; 360; 502; 358; 530; 299; 528]%Z ].

(** A name list whose first mention (group 1) has a coordinate that is not
    in the OCR words, followed by resolving mentions of groups 2 and 1. *)
Definition late_group_mentions : list FieldMatch :=
  [mention "JON" 11 20 1; mention "1970" 300 500 2; mention "JOHN" 10 20 1].

Definition quoted (s : string) : string :=
  String "034"%char (s +:+ String "034"%char "").

(** A response cut off in the middle of its first item. *)
Definition truncated_response : string :=
  "{" +:+ quoted "name" +:+ ": [{" +:+ quoted "word" +:+ ": " +:+ quoted "DOE"
    +:+ ", " +:+ quoted "coordinate" +:+ ": [10, ".

(** The complete response for the single mention (DOE, [10,20], group 1). *)
Definition single_mention_response : string :=
  "{" +:+ quoted "name" +:+ ": [{" +:+ quoted "word" +:+ ": " +:+ quoted "DOE"
    +:+ ", " +:+ quoted "coordinate" +:+ ": [10, 20], " +:+ quoted "groupId"
    +:+ ": 1}], " +:+ quoted "dateOfBirth" +:+ ": [], " +:+ quoted "address"
    +:+ ": [], " +:+ quoted "causeOfDeath" +:+ ": []}".

(** A response that is JSON but lacks three of the four categories. *)
Definition incomplete_response : string :=
  "{" +:+ quoted "name" +:+ ": []}".

Definition sample_result : AzureOcr :=
  {| analyzeResult_pages :=
       [{| pageWidth := of_Z 400; pageHeight := of_Z 600; pageWords := sample_ocr |}] |}.

(** ** Vocabulary of the further properties *)

(** [Math.max(lo, Math.min(hi, v))], the clamp of the normalizer. *)
Definition clamp (lo hi v : number) : number :=
  Math_max [Some lo; Some (Math_min [Some hi; Some v])].

(** The box lies in the unit square, measured as the normalizer measures
    it: x and y between 0 and 1, width between 0 and the difference
    [1 - x], height between 0 and the difference [1 - y]. *)
Definition in_page (h : Highlight) : Prop :=
  (0 <= x h)%num ∧ (x h <= 1)%num ∧ (0 <= y h)%num ∧ (y h <= 1)%num
  ∧ (0 <= width h)%num ∧ (width h <= 1 - x h)%num
  ∧ (0 <= height h)%num ∧ (height h <= 1 - y h)%num.

(** [h'] has the id, the text and, numerically, the x and y of [h]; its
    width is the lesser of the width of [h] and the difference [1 - x], its
    height the lesser of the height of [h] and the difference [1 - y]. *)
Definition origin_kept (h' h : Highlight) : Prop :=
  id h' = id h ∧ text h' = text h
  ∧ (x h' == x h)%num ∧ (y h' == y h)%num
  ∧ (width h' == Math_min [Some (1 - x h')%num; Some (width h)])%num
  ∧ (height h' == Math_min [Some (1 - y h')%num; Some (height h)])%num.

(** Same id and text, numerically equal geometry. *)
Definition same_box (h1 h2 : Highlight) : Prop :=
  id h1 = id h2 ∧ text h1 = text h2
  ∧ (x h1 == x h2)%num ∧ (y h1 == y h2)%num
  ∧ (width h1 == width h2)%num ∧ (height h1 == height h2)%num.

(** ** The schema requested of the extraction model

    [responseJsonSchema], the JSON Schema sent along with the request, read
    as the set of JSON values it admits: [type], [properties] with all of
    them [required], [items], and for the coordinate [prefixItems] with
    [minItems] and [maxItems] 2.  A JSON number is never NaN. *)

Definition schema_string (v : option json) : bool :=
  match v with
  | Some (JString _) => true
  | _ => false
  end.

Definition schema_number (v : option json) : bool :=
  match v with
  | Some (JNumber n) => negb (isNaN n)
  | _ => false
  end.

Definition schema_coordinate (v : option json) : bool :=
  match v with
  | Some (JArray items) =>
      Nat.leb 2 (length items) && Nat.leb (length items) 2
      && schema_number (items !! 0%nat) && schema_number (items !! 1%nat)
  | _ => false
  end.

Definition fieldItemProperty_items (v : json) : bool :=
  match v with
  | JObject members =>
      schema_string (get_member "word" members)
      && schema_coordinate (get_member "coordinate" members)
      && schema_number (get_member "groupId" members)
  | _ => false
  end.

Definition fieldItemProperty (v : option json) : bool :=
  match v with
  | Some (JArray items) => forallb fieldItemProperty_items items
  | _ => false
  end.

Definition responseJsonSchema (v : json) : bool :=
  match v with
  | JObject members =>
      fieldItemProperty (get_member "name" members)
      && fieldItemProperty (get_member "dateOfBirth" members)
      && fieldItemProperty (get_member "address" members)
      && fieldItemProperty (get_member "causeOfDeath" members)
  | _ => false
  end.

(** *** JSON values of the requested shape *)

(** The item [{word, coordinate: [x, y], groupId}] of a mention. *)
Definition fieldMatch_json (m : FieldMatch) : json :=
  JObject [("word", JString (word m));
           ("coordinate", JArray [JNumber (coordinate m).1; JNumber (coordinate m).2]);
           ("groupId", JNumber (groupId m))].

(** The object with the four categories of a field set. *)
Definition fields_json (fields : ParsedFieldValues) : json :=
  JObject [("name", JArray (fieldMatch_json <$> name fields));
           ("dateOfBirth", JArray (fieldMatch_json <$> dateOfBirth fields));
           ("address", JArray (fieldMatch_json <$> address fields));
           ("causeOfDeath", JArray (fieldMatch_json <$> causeOfDeath fields))].

(** No number of the mention is NaN. *)
Definition numeric_match (m : FieldMatch) : Prop :=
  isNaN (coordinate m).1 = false ∧ isNaN (coordinate m).2 = false
  ∧ isNaN (groupId m) = false.

Definition numeric_fields (fields : ParsedFieldValues) : Prop :=
  Forall numeric_match (name fields) ∧ Forall numeric_match (dateOfBirth fields)
  ∧ Forall numeric_match (address fields) ∧ Forall numeric_match (causeOfDeath fields).

(** The four keys of the validated object. *)
Definition categoryKeys : list string :=
  ["name"; "dateOfBirth"; "address"; "causeOfDeath"].

(** *** Groups, declaratively *)

(** No two keys of the list are the same value. *)
Fixpoint distinctKeys (ks : list number) : bool :=
  match ks with
  | [] => true
  | k :: rest => negb (existsb (λ k', sameValueZero k k') rest) && distinctKeys rest
  end.

(** The mentions of group [g]: those that resolve and carry its id, in the
    order of the mention list. *)
Definition groupMembers (ocr : list OcrWord) (values : list FieldMatch)
    (g : number) : list FieldMatch :=
  List.filter (λ value, resolves ocr value && sameValueZero g (groupId value)) values.

(** The OCR words the mentions are resolved to. *)
Definition matchedWords (ocr : list OcrWord) (values : list FieldMatch)
    : list OcrWord :=
  omap (λ value, wordByTopLeft ocr !! coordinateKey value) values.

Definition groupOf (ocr : list OcrWord) (values : list FieldMatch) (g : number)
    : Group :=
  {| words := word <$> groupMembers ocr values g;
     ocrWords := matchedWords ocr (groupMembers ocr values g) |}.

(** The group ids of a category, at their first resolving mention. *)
Definition groupIds (ocr : list OcrWord) (values : list FieldMatch) : list number :=
  firstAppearance (groupId <$> List.filter (resolves ocr) values).

(** ** The pipeline before grouping ([src/unnamed/part_001])

    The earlier version of the mapping: a mention has no group id, every
    resolving mention yields a highlight of its own, and the id of a
    highlight carries the index of its mention. *)

Module Legacy.

Record FieldMatch : Type := {
  word : string;
  coordinate : Coordinate;
}.

Definition wordToHighlight (word : OcrWord) (pageWidth pageHeight : number)
    (text id : string) : Highlight :=
  let allXs := [polygon word !! 0%nat; polygon word !! 2%nat;
                polygon word !! 4%nat; polygon word !! 6%nat] in
  let allYs := [polygon word !! 1%nat; polygon word !! 3%nat;
                polygon word !! 5%nat; polygon word !! 7%nat] in
  let minX := Math_min allXs in
  let maxX := Math_max allXs in
  let minY := Math_min allYs in
  let maxY := Math_max allYs in
  {| id := id;
     text := text;
     x := minX / pageWidth;
     y := minY / pageHeight;
     width := (maxX - minX) / pageWidth;
     height := (maxY - minY) / pageHeight |}.

Definition coordinateKey (value : FieldMatch) : string :=
  let '(x, y) := coordinate value in
  Number_toString x +:+ "," +:+ Number_toString y.

(** The callback of [values.map]: [null] for a mention that matches no word. *)
Definition mentionHighlight (fieldLabel fieldKey : string)
    (byTopLeft : gmap string OcrWord) (pageWidth pageHeight : number)
    (index : nat) (value : FieldMatch) : option Highlight :=
  match byTopLeft !! coordinateKey value with
  | None => None
  | Some matchedWord =>
      Some (wordToHighlight matchedWord pageWidth pageHeight
              (fieldLabel +:+ ": " +:+ word value)
              ("h-" +:+ fieldKey +:+ "-"
                 +:+ Number_toString (of_Z (Z.of_nat index))))
  end.

(** [Boolean(v)] of an object or [null]. *)
Definition Boolean_nullable {A} (v : option A) : bool :=
  match v with
  | Some _ => true
  | None => false
  end.

Definition mapFieldListToHighlights (fieldLabel fieldKey : string)
    (values : list FieldMatch) (ocr : list OcrWord)
    (pageWidth pageHeight : number) : list Highlight :=
  omap (λ highlight, highlight)
    (List.filter Boolean_nullable
       (imap (mentionHighlight fieldLabel fieldKey (wordByTopLeft ocr)
                pageWidth pageHeight) values)).

End Legacy.

(** A mention without its group id. *)
Definition ungrouped (value : FieldMatch) : Legacy.FieldMatch :=
  {| Legacy.word := word value; Legacy.coordinate := coordinate value |}.

(** Text and geometry of a highlight, without its id. *)
Definition labelledBox (h : Highlight) : string * number * number * number * number :=
  (text h, x h, y h, width h, height h).

(** The group id is an integer. *)
Definition integerGroupId (value : FieldMatch) : Prop :=
  ∃ z : Z, groupId value = of_Z z.

(** *** Characters of a text *)

(** The number of occurrences of a character. *)
Fixpoint count_char (c : ascii) (s : string) : nat :=
  match s with
  | EmptyString => 0
  | String a rest => (if decide (a = c) then 1 else 0) + count_char c rest
  end.

(** The top-left corner of the word has integer coordinates. *)
Definition integerCorner (w : OcrWord) : Prop :=
  ∃ a b : Z, default 0%num (polygon w !! 0%nat) = of_Z a
             ∧ default 0%num (polygon w !! 1%nat) = of_Z b.

(** The line feeds that the contents of the words hold. *)
Definition contentLineFeeds (words : list OcrWord) : nat :=
  foldr (λ word total, (count_char "010"%char (content word) + total)%nat) 0%nat words.

(** The group identifier is an integer. *)
Definition integerId (g : number) : Prop := ∃ z : Z, g = of_Z z.

(** ** The dashboard (src/app/page.tsx)

    The page keeps three pieces of state: the uploads, the identifier of the
    selected upload and the identifier of the upload being processed; a ref
    collects the object URLs made.  Its handlers are functions of that
    state; the browser supplies the chosen files, their object URLs and the
    readings of the clock.  The page has its own copy of
    [normalizeHighlights], the same text as the pipeline's. *)

Module Dashboard.

Definition FAKE_HIGHLIGHTS : list Highlight :=
  [ {| id := "h-name"; x := Fin (7 # 100); y := Fin (15 # 100);
       width := Fin (34 # 100); height := Fin (5 # 100);
       text := "Name: JOHN A DOE" |};
    {| id := "h-dob"; x := Fin (7 # 100); y := Fin (24 # 100);
       width := Fin (23 # 100); height := Fin (5 # 100);
       text := "DOB: 02/14/1951" |};
    {| id := "h-dod"; x := Fin (7 # 100); y := Fin (31 # 100);
       width := Fin (24 # 100); height := Fin (5 # 100);
       text := "Date of Death: 01/28/2026" |};
    {| id := "h-ssn"; x := Fin (55 # 100); y := Fin (24 # 100);
       width := Fin (22 # 100); height := Fin (5 # 100);
       text := "SSN: XXX-XX-6789" |};
    {| id := "h-address"; x := Fin (55 # 100); y := Fin (32 # 100);
       width := Fin (33 # 100); height := Fin (9 # 100);
       text := "Address: 123 Main St, Austin, TX" |} ].

(** The value that the promise of [fakeProcessCertificate] resolves to. *)
Definition fakeProcessCertificate : list Highlight := FAKE_HIGHLIGHTS.

(** A chosen file: its name and the URL that [URL.createObjectURL] makes
    for it. *)
Record File : Type := {
  fileName : string;
  objectUrl : string;
}.

Record UploadedCertificate : Type := {
  id : string;
  name : string;
  imageUrl : string;
  highlights : list Highlight;
}.

Record State : Type := {
  uploads : list UploadedCertificate;
  selectedId : option string;
  processingUploadId : option string;
  createdObjectUrls : list string;
}.

Definition initial : State :=
  {| uploads := []; selectedId := None; processingUploadId := None;
     createdObjectUrls := [] |}.

(** [uploads.find((upload) => upload.id === selectedId) ?? null]; no
    identifier is [=== null]. *)
Definition selectedUpload (s : State) : option UploadedCertificate :=
  match selectedId s with
  | Some selected => List.find (λ upload, bool_decide (id upload = selected)) (uploads s)
  | None => None
  end.

Definition isProcessing (s : State) : bool :=
  match processingUploadId s with
  | Some _ => true
  | None => false
  end.

(** The identifier [`${Date.now()}-${index}`], for a reading of the clock
    in milliseconds. *)
Definition uploadId (now : Z) (index : nat) : string :=
  Number_toString (of_Z now) +:+ "-" +:+ Number_toString (of_Z (Z.of_nat index)).

(** [handleFiles]; [clock index] is what [Date.now()] reads when the file
    at [index] is mapped. *)
Definition handleFiles (files : list File) (clock : nat → Z) (s : State) : State :=
  if decide (length files = 0%nat) then s
  else
    let newUploads :=
      imap (λ index file,
              {| id := uploadId (clock index) index;
                 name := fileName file;
                 imageUrl := objectUrl file;
                 highlights := [] |}) files in
    {| uploads := uploads s ++ newUploads;
       selectedId := match selectedId s with
                     | Some prev => Some prev
                     | None => id <$> head newUploads
                     end;
       processingUploadId := processingUploadId s;
       createdObjectUrls := createdObjectUrls s ++ (imageUrl <$> newUploads) |}.

Definition setSelectedId (selected : string) (s : State) : State :=
  {| uploads := uploads s; selectedId := Some selected;
     processingUploadId := processingUploadId s;
     createdObjectUrls := createdObjectUrls s |}.

(** [runProcessing] up to its [await]. *)
Definition runProcessing_start (processed : string) (s : State) : State :=
  {| uploads := uploads s; selectedId := selectedId s;
     processingUploadId := Some processed;
     createdObjectUrls := createdObjectUrls s |}.

(** [runProcessing] from its [await] on: the result is stored in the
    uploads of that identifier, and the [finally] block runs. *)
Definition runProcessing_resume (processed : string) (result : list Highlight)
    (s : State) : State :=
  {| uploads :=
       (λ upload,
          if bool_decide (id upload = processed)
          then {| id := id upload; name := name upload;
                  imageUrl := imageUrl upload;
                  highlights := normalizeHighlights result |}
          else upload) <$> uploads s;
     selectedId := selectedId s;
     processingUploadId := None;
     createdObjectUrls := createdObjectUrls s |}.

(** [handleRunProcess] up to the [await] of [runProcessing]. *)
Definition handleRunProcess (s : State) : State :=
  match selectedUpload s with
  | None => s
  | Some upload => if isProcessing s then s else runProcessing_start (id upload) s
  end.

(** What happens to the page: files are chosen, the button of an upload or
    the run button is clicked, the pending promise resolves. *)
Inductive Event : Type :=
  | FilesChosen (files : list File) (clock : nat → Z)
  | UploadClicked (upload : string)
  | RunClicked
  | Resolved.

(** The file input, the upload buttons and the run button are disabled
    while an upload is processed; there is a button for each upload of the
    list and for no other. *)
Definition step (s : State) (e : Event) : State :=
  match e with
  | FilesChosen files clock =>
      if isProcessing s then s else handleFiles files clock s
  | UploadClicked upload =>
      if isProcessing s then s
      else if bool_decide (upload ∈ id <$> uploads s) then setSelectedId upload s
      else s
  | RunClicked => handleRunProcess s
  | Resolved =>
      match processingUploadId s with
      | Some processed => runProcessing_resume processed fakeProcessCertificate s
      | None => s
      end
  end.

Definition run (events : list Event) : State := foldl step initial events.

(** The readings of the clock for one choice of files. *)
Definition readings (files : list File) (clock : nat → Z) : list Z :=
  clock <$> seq 0 (length files).

(** The clock never reads less than [t0], and reads more for each choice of
    files than for the choices before it. *)
Fixpoint clockAdvances (t0 : Z) (events : list Event) : bool :=
  match events with
  | [] => true
  | FilesChosen files clock :: rest =>
      forallb (λ t, t0 <=? t)%Z (readings files clock)
      && clockAdvances (foldr Z.max t0 (readings files clock) + 1) rest
  | _ :: rest => clockAdvances t0 rest
  end.

End Dashboard.

(** What every state of the page satisfies. *)
Definition dashboard_invariant (s : Dashboard.State) : Prop :=
  (Dashboard.selectedId s = None ↔ Dashboard.uploads s = [])
  ∧ (∀ selected, Dashboard.selectedId s = Some selected →
       selected ∈ Dashboard.id <$> Dashboard.uploads s)
  ∧ (∀ processed, Dashboard.processingUploadId s = Some processed →
       Dashboard.selectedId s = Some processed)
  ∧ Dashboard.imageUrl <$> Dashboard.uploads s = Dashboard.createdObjectUrls s.

(** The identifiers of the uploads differ, and each was made from a
    reading of the clock from [0] to below [t0]. *)
Definition stampedBefore (t0 : Z) (s : Dashboard.State) : Prop :=
  NoDup (Dashboard.id <$> Dashboard.uploads s)
  ∧ Forall (λ upload, ∃ (t : Z) (index : nat),
              Dashboard.id upload = Dashboard.uploadId t index ∧ (0 ≤ t < t0)%Z)
      (Dashboard.uploads s).

(** *** Lines of a text *)

(** [text.split("\n")]: the pieces of the text between its line feeds. *)
Fixpoint splitLines (s : string) : list string :=
  match s with
  | EmptyString => [EmptyString]
  | String c rest =>
      if decide (c = "010"%char) then EmptyString :: splitLines rest
      else match splitLines rest with
           | first :: others => String c first :: others
           | [] => [String c EmptyString]
           end
  end.

(** The content of the word holds no line feed. *)
Definition singleLine (word : OcrWord) : Prop :=
  count_char "010"%char (content word) = 0%nat.

(** A word whose polygon lacks its fourth corner. *)
Definition short_polygon_word : OcrWord :=
  word_of "DOE" [70; 20; 120; 22; 119; 41]%Z.

(** A word whose content holds a line feed. *)
Definition two_line_word : OcrWord :=
  word_of ("A:1, 2" +:+ newline +:+ "B") [3; 4; 30; 4; 30; 14; 3; 14]%Z.

(** ** Properties of the number operations *)

Section number_facts.
Implicit Types a b c : number.

Lemma num_le_refl a : isNaN a = false → (a <= a)%num.
Proof.
  destruct a; simpl; try done. intros _. apply Qle_bool_iff. lra.
Qed.

Lemma num_le_trans a b c : (a <= b)%num → (b <= c)%num → (a <= c)%num.
Proof.
  unfold num_le. destruct a, b, c; simpl; try done.
  rewrite !Qle_bool_iff. lra.
Qed.

Lemma num_le_not_NaN a b : (a <= b)%num → isNaN a = false ∧ isNaN b = false.
Proof. unfold num_le. by destruct a, b. Qed.

Lemma num_ltb_true_le a b : num_ltb a b = true → (a <= b)%num.
Proof.
  unfold num_le. destruct a as [| |p|], b as [| |q|]; simpl; try done.
  rewrite negb_true_iff. intros H. apply Qle_bool_iff.
  destruct (Qlt_le_dec p q) as [Hlt | Hle]; [lra |].
  apply Qle_bool_iff in Hle. congruence.
Qed.

Lemma num_ltb_false_le a b :
  isNaN a = false → isNaN b = false → num_ltb a b = false → (b <= a)%num.
Proof.
  unfold num_le. destruct a, b; simpl; try done.
  intros _ _. by rewrite negb_false_iff.
Qed.

Lemma num_le_Fin p q : (Fin p <= Fin q)%num ↔ (p <= q)%Q.
Proof. unfold num_le. simpl. apply Qle_bool_iff. Qed.

Lemma num_sub_Fin p q : (Fin p - Fin q)%num = Fin (p + - q).
Proof. reflexivity. Qed.
End number_facts.

Lemma Qle_bool_false (p q : Q) : Qle_bool p q = false → (q < p)%Q.
Proof.
  intros H. destruct (Qlt_le_dec q p) as [Hlt | Hle]; [done |].
  apply Qle_bool_iff in Hle. congruence.
Qed.

Ltac Qle_cases :=
  repeat match goal with
    | |- context [Qle_bool ?p ?q] =>
        let E := fresh "E" in
        destruct (Qle_bool p q) eqn:E;
        [apply Qle_bool_iff in E | apply Qle_bool_false in E]; simpl
    end.

(** [Math.max(lo, Math.min(hi, v))] with finite bounds [lo <= hi] and a
    value that is not NaN is a finite number between the bounds. *)
Lemma clamp_Fin (lo hi : Q) (v : number) :
  (lo <= hi)%Q → isNaN v = false →
  ∃ r, Math_max [Some (Fin lo); Some (Math_min [Some (Fin hi); Some v])] = Fin r
       ∧ (lo <= r <= hi)%Q.
Proof.
  intros Hb Hv. unfold Math_max, Math_min. simpl.
  unfold Math_max_step, Math_min_step.
  destruct v as [| |q|]; simpl in *; try done.
  - exists lo. split; [done | lra].
  - Qle_cases; eexists; (split; [reflexivity | lra]).
  - Qle_cases; eexists; (split; [reflexivity | lra]).
Qed.

(** ** The normalizer *)

Lemma normalizeHighlight_contained (h : Highlight) :
  numeric h → contained (normalizeHighlight h).
Proof.
  intros (Hx & Hy & Hw & Hh). unfold contained, normalizeHighlight.
  cbn [x y width height].
  change 0%num with (Fin 0). change 1%num with (Fin 1).
  destruct (clamp_Fin 0 1 (x h)) as (rx & -> & Hrx); [lra | done |].
  destruct (clamp_Fin 0 1 (y h)) as (ry & -> & Hry); [lra | done |].
  rewrite !num_sub_Fin.
  destruct (clamp_Fin 0 (1 + - rx) (width h)) as (rw & -> & Hrw); [lra | done |].
  destruct (clamp_Fin 0 (1 + - ry) (height h)) as (rh & -> & Hrh); [lra | done |].
  cbn [num_add]. rewrite !num_le_Fin. repeat split; lra.
Qed.

(** C2, amended. For every list of input highlights whose x, y, width and
    height are numbers (none is NaN; out-of-page and infinite values are
    allowed), every output highlight of the normalizer satisfies 0 <= x,
    0 <= y, x + width <= 1 and y + height <= 1: x and y are clamped to
    [0,1] first, width and height are then clamped against the clamped x
    and y. *)
Theorem normalizeHighlights_containment (highlights : list Highlight) :
  Forall numeric highlights →
  Forall contained (normalizeHighlights highlights).
Proof.
  unfold normalizeHighlights. induction 1 as [| h hs Hh _ IH]; simpl.
  - constructor.
  - constructor; [by apply normalizeHighlight_contained | exact IH].
Qed.

Lemma normalizeHighlights_containment_witness :
  Forall numeric out_of_page_boxes
  ∧ Forall contained (normalizeHighlights out_of_page_boxes).
Proof.
  split.
  - repeat constructor.
  - apply (normalizeHighlights_containment out_of_page_boxes).
    repeat constructor.
Defined.

(** C2 as stated fails: the box of a word whose polygon lacks a corner, on
    a page of positive width and height, has NaN fields; the normalizer
    leaves them NaN, and its output is not contained. *)
Lemma normalizeHighlights_containment_counterexample :
  let h := wordsToHighlight [short_polygon_word] (of_Z 400) (of_Z 600)
             "Name: DOE" "h-name-g-1" in
  y <$> normalizeHighlights [h] = [NaN]
  ∧ height <$> normalizeHighlights [h] = [NaN]
  ∧ ¬ Forall contained (normalizeHighlights [h]).
Proof.
  intros h. split; [by vm_compute |]. split; [by vm_compute |].
  intros H. apply Forall_inv in H. destruct H as (_ & Hy & _).
  by vm_compute in Hy.
Qed.

Lemma ids_normalizeHighlights (highlights : list Highlight) :
  id <$> normalizeHighlights highlights = id <$> highlights.
Proof.
  unfold normalizeHighlights. rewrite <- list_fmap_compose. by apply list_fmap_ext.
Qed.

Lemma texts_normalizeHighlights (highlights : list Highlight) :
  text <$> normalizeHighlights highlights = text <$> highlights.
Proof.
  unfold normalizeHighlights. rewrite <- list_fmap_compose. by apply list_fmap_ext.
Qed.

(** C9. The normalizer is a total function that keeps every highlight: the
    output has the length of the input, and position by position the same
    [id] and [text]; only x, y, width and height are recomputed. *)
Theorem normalizeHighlights_frame (highlights : list Highlight) :
  length (normalizeHighlights highlights) = length highlights
  ∧ id <$> normalizeHighlights highlights = id <$> highlights
  ∧ text <$> normalizeHighlights highlights = text <$> highlights.
Proof.
  split; [apply length_fmap |].
  split; [apply ids_normalizeHighlights | apply texts_normalizeHighlights].
Qed.

(** ** [Math.min] and [Math.max] over a list *)

Section fold_extremum.
Variable R : number → number → Prop.
Variable step : number → number → number.
Hypothesis R_trans : ∀ a b c, R a b → R b c → R a c.
Hypothesis R_refl : ∀ a, isNaN a = false → R a a.
Hypothesis step_spec : ∀ acc n,
  isNaN acc = false → isNaN n = false →
  (step acc n = acc ∨ step acc n = n) ∧ R (step acc n) acc ∧ R (step acc n) n.

Lemma foldl_extremum (ns : list number) (acc : number) :
  Forall (λ n, isNaN n = false) ns → isNaN acc = false →
  R (foldl step acc ns) acc
  ∧ Forall (R (foldl step acc ns)) ns
  ∧ (foldl step acc ns = acc ∨ foldl step acc ns ∈ ns).
Proof.
  intros Hns. revert acc. induction Hns as [| n ns Hn _ IH]; intros acc Hacc; simpl.
  - split; [by apply R_refl |]. split; [constructor | by left].
  - destruct (step_spec acc n Hacc Hn) as (Hsel & Hle_acc & Hle_n).
    assert (isNaN (step acc n) = false) as Hstep by (destruct Hsel; congruence).
    destruct (IH _ Hstep) as (Hr & Hall & Hin).
    split; [by eapply R_trans |].
    split; [constructor; [by eapply R_trans | done] |].
    destruct Hin as [Heq | Hin]; [| right; by right].
    rewrite Heq. destruct Hsel as [-> | ->]; [by left | right; by left].
Qed.
End fold_extremum.

Lemma Math_min_step_spec (acc n : number) :
  isNaN acc = false → isNaN n = false →
  (Math_min_step acc n = acc ∨ Math_min_step acc n = n)
  ∧ (Math_min_step acc n <= acc)%num ∧ (Math_min_step acc n <= n)%num.
Proof.
  intros Hacc Hn. unfold Math_min_step. rewrite Hacc, Hn. simpl.
  destruct (num_ltb n acc) eqn:E.
  - split; [by right |]. split; [by apply num_ltb_true_le | by apply num_le_refl].
  - split; [by left |]. split; [by apply num_le_refl | by apply num_ltb_false_le].
Qed.

Lemma Math_max_step_spec (acc n : number) :
  isNaN acc = false → isNaN n = false →
  (Math_max_step acc n = acc ∨ Math_max_step acc n = n)
  ∧ (acc <= Math_max_step acc n)%num ∧ (n <= Math_max_step acc n)%num.
Proof.
  intros Hacc Hn. unfold Math_max_step. rewrite Hacc, Hn. simpl.
  destruct (num_ltb acc n) eqn:E.
  - split; [by right |]. split; [by apply num_ltb_true_le | by apply num_le_refl].
  - split; [by left |]. split; [by apply num_le_refl | by apply num_ltb_false_le].
Qed.

Lemma finite_args_numbers (args : list (option number)) :
  finite_args args → Forall (λ n, isFinite n = true) (ToNumber <$> args).
Proof.
  unfold finite_args. rewrite Forall_fmap. intros H.
  eapply Forall_impl; [exact H |]. by intros o [q ->].
Qed.

(** Of one or more finite arguments [Math.min] is the least. *)
Lemma Math_min_least (args : list (option number)) :
  args ≠ [] → finite_args args →
  Math_min args ∈ ToNumber <$> args
  ∧ ∀ v, v ∈ ToNumber <$> args → (Math_min args <= v)%num.
Proof.
  intros Hne Hfin%finite_args_numbers. unfold Math_min.
  destruct (foldl_extremum num_le Math_min_step num_le_trans num_le_refl Math_min_step_spec
              (ToNumber <$> args) PosInf) as (_ & Hall & Hin); [| done |].
  { eapply Forall_impl; [exact Hfin |]. by intros []. }
  rewrite Forall_forall in Hall. split; [| exact Hall].
  destruct Hin as [Heq | Hin]; [| done].
  destruct args as [| o args]; [done |].
  apply Forall_cons in Hfin as [Ho _].
  specialize (Hall (ToNumber o) ltac:(by left)).
  rewrite Heq in Hall. destruct (ToNumber o); done.
Qed.

(** Of one or more finite arguments [Math.max] is the greatest. *)
Lemma Math_max_greatest (args : list (option number)) :
  args ≠ [] → finite_args args →
  Math_max args ∈ ToNumber <$> args
  ∧ ∀ v, v ∈ ToNumber <$> args → (v <= Math_max args)%num.
Proof.
  intros Hne Hfin%finite_args_numbers. unfold Math_max.
  destruct (foldl_extremum (flip num_le) Math_max_step
              (λ a b c Hab Hbc, num_le_trans c b a Hbc Hab) num_le_refl Math_max_step_spec
              (ToNumber <$> args) NegInf) as (_ & Hall & Hin); [| done |].
  { eapply Forall_impl; [exact Hfin |]. by intros []. }
  rewrite Forall_forall in Hall. split; [| exact Hall].
  destruct Hin as [Heq | Hin]; [| done].
  destruct args as [| o args]; [done |].
  apply Forall_cons in Hfin as [Ho _].
  specialize (Hall (ToNumber o) ltac:(by left)).
  unfold flip in Hall. rewrite Heq in Hall. destruct (ToNumber o); done.
Qed.

(** ** The union bounding box *)

Lemma quad_inv (word : OcrWord) :
  quad word →
  ∃ a0 a1 a2 a3 a4 a5 a6 a7 : Q,
    polygon word = [Fin a0; Fin a1; Fin a2; Fin a3; Fin a4; Fin a5; Fin a6; Fin a7].
Proof.
  intros [Hlen Hfin]. destruct (polygon word) as [| n0 p]; [done |].
  do 7 (destruct p as [| ? p]; [done |]). destruct p; [| done].
  repeat match goal with
    | H : Forall _ (_ :: _) |- _ => apply Forall_cons in H as [? H]
    end.
  repeat match goal with
    | H : isFinite ?n = true |- _ => destruct n; [done | done | clear H | done]
    end.
  by repeat eexists.
Qed.

Lemma allXs_finite (groupWords : list OcrWord) :
  Forall quad groupWords → finite_args (allXs groupWords).
Proof.
  unfold finite_args, allXs. induction 1 as [| word ws Hq _ IH]; [constructor |].
  destruct (quad_inv word Hq) as (a0 & a1 & a2 & a3 & a4 & a5 & a6 & a7 & Hp).
  simpl. rewrite Hp. simpl. repeat (constructor; [by eexists |]). exact IH.
Qed.

Lemma allYs_finite (groupWords : list OcrWord) :
  Forall quad groupWords → finite_args (allYs groupWords).
Proof.
  unfold finite_args, allYs. induction 1 as [| word ws Hq _ IH]; [constructor |].
  destruct (quad_inv word Hq) as (a0 & a1 & a2 & a3 & a4 & a5 & a6 & a7 & Hp).
  simpl. rewrite Hp. simpl. repeat (constructor; [by eexists |]). exact IH.
Qed.

Lemma allXs_nonempty (groupWords : list OcrWord) :
  groupWords ≠ [] → allXs groupWords ≠ [].
Proof. by destruct groupWords. Qed.

Lemma allYs_nonempty (groupWords : list OcrWord) :
  groupWords ≠ [] → allYs groupWords ≠ [].
Proof. by destruct groupWords. Qed.

(** The arguments handed to [Math.min] and [Math.max] are exactly the
    corner coordinates of the member words. *)
Lemma elem_of_allXs (groupWords : list OcrWord) (v : number) :
  Forall quad groupWords →
  v ∈ ToNumber <$> allXs groupWords ↔ corner_x groupWords v.
Proof.
  intros Hq. rewrite Forall_forall in Hq. unfold corner_x, allXs.
  rewrite list_elem_of_fmap. split.
  - intros (o & -> & (word & Ho & Hw)%list_elem_of_bind).
    destruct (quad_inv word (Hq _ Hw)) as (a0 & a1 & a2 & a3 & a4 & a5 & a6 & a7 & Hp).
    rewrite Hp in Ho. simpl in Ho. unfold corner.
    set_unfold. destruct Ho as [-> | [-> | [-> | [-> | []]]]].
    + exists word, (Fin a1). split; [done |]. exists 0%nat. rewrite Hp. by split; [lia |].
    + exists word, (Fin a3). split; [done |]. exists 1%nat. rewrite Hp. by split; [lia |].
    + exists word, (Fin a5). split; [done |]. exists 2%nat. rewrite Hp. by split; [lia |].
    + exists word, (Fin a7). split; [done |]. exists 3%nat. rewrite Hp. by split; [lia |].
  - intros (word & py & Hw & i & Hi & Hx & Hy). exists (Some v). split; [done |].
    apply list_elem_of_bind. exists word. split; [| done].
    rewrite <- Hx. do 4 (destruct i as [| i]; [set_solver |]). lia.
Qed.

Lemma elem_of_allYs (groupWords : list OcrWord) (v : number) :
  Forall quad groupWords →
  v ∈ ToNumber <$> allYs groupWords ↔ corner_y groupWords v.
Proof.
  intros Hq. rewrite Forall_forall in Hq. unfold corner_y, allYs.
  rewrite list_elem_of_fmap. split.
  - intros (o & -> & (word & Ho & Hw)%list_elem_of_bind).
    destruct (quad_inv word (Hq _ Hw)) as (a0 & a1 & a2 & a3 & a4 & a5 & a6 & a7 & Hp).
    rewrite Hp in Ho. simpl in Ho. unfold corner.
    set_unfold. destruct Ho as [-> | [-> | [-> | [-> | []]]]].
    + exists word, (Fin a0). split; [done |]. exists 0%nat. rewrite Hp. by split; [lia |].
    + exists word, (Fin a2). split; [done |]. exists 1%nat. rewrite Hp. by split; [lia |].
    + exists word, (Fin a4). split; [done |]. exists 2%nat. rewrite Hp. by split; [lia |].
    + exists word, (Fin a6). split; [done |]. exists 3%nat. rewrite Hp. by split; [lia |].
  - intros (word & px & Hw & i & Hi & Hx & Hy). exists (Some v). split; [done |].
    apply list_elem_of_bind. exists word. split; [| done].
    rewrite <- Hy. do 4 (destruct i as [| i]; [set_solver |]). lia.
Qed.

Create HintDb box discriminated.
#[local] Hint Resolve allXs_nonempty allYs_nonempty allXs_finite allYs_finite : box.

Lemma minX_least (groupWords : list OcrWord) :
  groupWords ≠ [] → Forall quad groupWords →
  is_least (minX groupWords) (corner_x groupWords).
Proof.
  intros Hne Hq. unfold is_least, minX.
  destruct (Math_min_least (allXs groupWords)) as [Hin Hle];
    [auto with box .. |].
  split; [by apply elem_of_allXs |].
  intros v Hv. by apply Hle, elem_of_allXs.
Qed.

Lemma maxX_greatest (groupWords : list OcrWord) :
  groupWords ≠ [] → Forall quad groupWords →
  is_greatest (maxX groupWords) (corner_x groupWords).
Proof.
  intros Hne Hq. unfold is_greatest, maxX.
  destruct (Math_max_greatest (allXs groupWords)) as [Hin Hle];
    [auto with box .. |].
  split; [by apply elem_of_allXs |].
  intros v Hv. by apply Hle, elem_of_allXs.
Qed.

Lemma minY_least (groupWords : list OcrWord) :
  groupWords ≠ [] → Forall quad groupWords →
  is_least (minY groupWords) (corner_y groupWords).
Proof.
  intros Hne Hq. unfold is_least, minY.
  destruct (Math_min_least (allYs groupWords)) as [Hin Hle];
    [auto with box .. |].
  split; [by apply elem_of_allYs |].
  intros v Hv. by apply Hle, elem_of_allYs.
Qed.

Lemma maxY_greatest (groupWords : list OcrWord) :
  groupWords ≠ [] → Forall quad groupWords →
  is_greatest (maxY groupWords) (corner_y groupWords).
Proof.
  intros Hne Hq. unfold is_greatest, maxY.
  destruct (Math_max_greatest (allYs groupWords)) as [Hin Hle];
    [auto with box .. |].
  split; [by apply elem_of_allYs |].
  intros v Hv. by apply Hle, elem_of_allYs.
Qed.

(** C3. For every non-empty group of OCR words with quadrilateral polygons,
    the box from which [wordsToHighlight] computes the highlight is the
    union box: [minX] (resp. [minY]) is the least of the corner x-values
    (resp. y-values) of all member words, [maxX] and [maxY] the greatest;
    no relation between the member words' positions is assumed. *)
Theorem wordsToHighlight_union_box (groupWords : list OcrWord)
    (pageWidth pageHeight : number) (text id : string) :
  groupWords ≠ [] → Forall quad groupWords →
  is_least (minX groupWords) (corner_x groupWords)
  ∧ is_greatest (maxX groupWords) (corner_x groupWords)
  ∧ is_least (minY groupWords) (corner_y groupWords)
  ∧ is_greatest (maxY groupWords) (corner_y groupWords)
  ∧ wordsToHighlight groupWords pageWidth pageHeight text id
    = {| id := id; text := text;
         x := minX groupWords / pageWidth;
         y := minY groupWords / pageHeight;
         width := (maxX groupWords - minX groupWords) / pageWidth;
         height := (maxY groupWords - minY groupWords) / pageHeight |}.
Proof.
  intros Hne Hq.
  split; [by apply minX_least |]. split; [by apply maxX_greatest |].
  split; [by apply minY_least |]. split; [by apply maxY_greatest |].
  reflexivity.
Qed.

Lemma quad_word_of (content : string) (corners : list Z) :
  length corners = 8%nat → quad (word_of content corners).
Proof.
  intros Hlen. split; simpl.
  - by rewrite length_fmap.
  - rewrite Forall_fmap. by apply Forall_true.
Qed.

Lemma wordsToHighlight_union_box_witness :
  is_least (of_Z 10) (corner_x scattered_words)
  ∧ is_greatest (of_Z 360) (corner_x scattered_words)
  ∧ is_least (of_Z 20) (corner_y scattered_words)
  ∧ is_greatest (of_Z 530) (corner_y scattered_words).
Proof.
  destruct (wordsToHighlight_union_box scattered_words (of_Z 1000) (of_Z 1000) "" "")
    as (Hx & HX & Hy & HY & _).
  - done.
  - repeat constructor; by apply quad_word_of.
  - exact (conj Hx (conj HX (conj Hy HY))).
Defined.

(** ** The coordinate lookup *)

Lemma wordByTopLeft_snoc (ocr : list OcrWord) (w : OcrWord) :
  wordByTopLeft (ocr ++ [w]) = <[topLeftKey w := w]> (wordByTopLeft ocr).
Proof. unfold wordByTopLeft. by rewrite foldl_app. Qed.

(** A key that is found belongs to the word it is mapped to, a word of
    the list. *)
Lemma wordByTopLeft_Some (ocr : list OcrWord) (key : string) (w : OcrWord) :
  wordByTopLeft ocr !! key = Some w → w ∈ ocr ∧ topLeftKey w = key.
Proof.
  induction ocr as [| w' ocr IH] using rev_ind; [done |].
  rewrite wordByTopLeft_snoc.
  destruct (decide (topLeftKey w' = key)) as [Heq | Hne].
  - rewrite <- Heq, lookup_insert_eq. intros [= ->].
    split; [apply elem_of_app; right; by left | done].
  - rewrite lookup_insert_ne by done. intros [Hin Hk]%IH.
    split; [apply elem_of_app; by left | done].
Qed.

(** A key is absent exactly when it is the key of no word. *)
Lemma wordByTopLeft_None (ocr : list OcrWord) (key : string) :
  wordByTopLeft ocr !! key = None ↔ ∀ w, w ∈ ocr → topLeftKey w ≠ key.
Proof.
  induction ocr as [| w' ocr IH] using rev_ind.
  - split; [by intros _ w Hw%elem_of_nil | done].
  - rewrite wordByTopLeft_snoc.
    destruct (decide (topLeftKey w' = key)) as [Heq | Hne].
    + rewrite <- Heq, lookup_insert_eq. split; [done |].
      intros H. destruct (H w'); [apply elem_of_app; right; by left | done].
    + rewrite lookup_insert_ne by done. rewrite IH. split.
      * intros H w [Hw | ->%list_elem_of_singleton]%elem_of_app; [by apply H | done].
      * intros H w Hw. apply H, elem_of_app. by left.
Qed.

(** Of several words with one key the lookup holds the last. *)
Lemma wordByTopLeft_last (before after : list OcrWord) (w : OcrWord) :
  Forall (λ later, topLeftKey later ≠ topLeftKey w) after →
  wordByTopLeft (before ++ w :: after)%list !! topLeftKey w = Some w.
Proof.
  induction after as [| w' after IH] using rev_ind; intros Hafter.
  - by rewrite wordByTopLeft_snoc, lookup_insert_eq.
  - apply Forall_app in Hafter as [Hafter Hw'%Forall_inv].
    rewrite app_comm_cons, app_assoc, wordByTopLeft_snoc.
    rewrite lookup_insert_ne by done. by apply IH.
Qed.

(** ** The [groups] map *)

Lemma sameValueZero_trans (a b c : number) :
  sameValueZero a b = true → sameValueZero b c = true → sameValueZero a c = true.
Proof.
  destruct a, b, c; simpl; try done.
  rewrite !Qeq_bool_iff. intros H1 H2. by rewrite H1.
Qed.

Lemma sameValueZero_refl (a : number) : sameValueZero a a = true.
Proof. destruct a; simpl; try done. by apply Qeq_bool_iff. Qed.

Lemma keys_Map_set {V} (m : list (number * V)) (key : number) (value : V) :
  keys (Map_set m key value) = addKey (keys m) key.
Proof.
  unfold keys, addKey. induction m as [| [k v] m IH]; [done |].
  cbn [Map_set]. rewrite fmap_cons. cbn [fst existsb].
  destruct (sameValueZero k key); cbn [orb]; [done |].
  rewrite fmap_cons, IH. cbn [fst]. by destruct (existsb _ _).
Qed.

Lemma Map_get_Some {V} (m : list (number * V)) (key : number) (v : V) :
  Map_get m key = Some v → ∃ k, (k, v) ∈ m.
Proof.
  induction m as [| [k v'] m IH]; simpl; [done |].
  destruct (sameValueZero k key).
  - intros [= ->]. exists k. by left.
  - intros [k' Hk']%IH. exists k'. by right.
Qed.

Lemma elem_of_Map_set {V} (m : list (number * V)) (key : number) (value : V) k v :
  (k, v) ∈ Map_set m key value → (k, v) ∈ m ∨ v = value.
Proof.
  induction m as [| [k' v'] m IH]; simpl.
  - intros [= -> ->]%list_elem_of_singleton. by right.
  - destruct (sameValueZero k' key).
    + intros [[= -> ->] | Hin]%elem_of_cons; [by right | left; by right].
    + intros [[= -> ->] | Hin]%elem_of_cons; [left; by left |].
      destruct (IH Hin); [left; by right | by right].
Qed.

Lemma addMention_ok (ocr : list OcrWord) (groups : list (number * Group))
    (value : FieldMatch) :
  Forall (λ entry, group_ok ocr entry.2) groups →
  Forall (λ entry, group_ok ocr entry.2) (addMention (wordByTopLeft ocr) groups value).
Proof.
  intros Hok. unfold addMention.
  destruct (wordByTopLeft ocr !! coordinateKey value) as [w |] eqn:Hw; [| done].
  apply wordByTopLeft_Some in Hw as [Hw _].
  rewrite Forall_forall in Hok. apply Forall_forall. intros [k g] Hin. simpl.
  destruct (Map_get groups (groupId value)) as [existing |] eqn:Hget.
  - apply elem_of_Map_set in Hin as [Hin | ->]; [by apply (Hok (k, g)) |].
    apply Map_get_Some in Hget as [k' Hk'].
    destruct (Hok _ Hk') as (Hne & Hlen & Hall). unfold group_ok. simpl in *.
    split; [by destruct (ocrWords existing) |].
    split; [rewrite !length_app; simpl; lia |].
    apply Forall_app. split; [done | by constructor].
  - apply elem_of_Map_set in Hin as [Hin | ->]; [by apply (Hok (k, g)) |].
    split; [done |]. split; [done |]. simpl. by constructor.
Qed.

Lemma collectGroups_ok (values : list FieldMatch) (ocr : list OcrWord) :
  Forall (λ entry, group_ok ocr entry.2) (collectGroups values ocr).
Proof.
  unfold collectGroups.
  assert (Forall (λ entry : number * Group, group_ok ocr entry.2) []) as Hnil
    by constructor.
  revert Hnil. generalize (@nil (number * Group)).
  induction values as [| value values IH]; intros groups Hok; simpl; [done |].
  by apply IH, addMention_ok.
Qed.

Lemma extent_nonnegative (args : list (option number)) :
  args ≠ [] → finite_args args →
  (Math_min args <= Math_max args)%num ∧ (0 <= Math_max args - Math_min args)%num.
Proof.
  intros Hne Hfin.
  destruct (Math_min_least args Hne Hfin) as [Hmin Hleast].
  destruct (Math_max_greatest args Hne Hfin) as [Hmax _].
  pose proof (Hleast _ Hmax) as Hle. split; [done |].
  pose proof (finite_args_numbers args Hfin) as Hnum. rewrite Forall_forall in Hnum.
  apply Hnum in Hmin, Hmax.
  destruct (Math_min args) as [| | a |], (Math_max args) as [| | b |]; try done.
  apply num_le_Fin in Hle. rewrite num_sub_Fin. change 0%num with (Fin 0).
  apply num_le_Fin. lra.
Qed.

(** C10, amended. Every group of the map built by [values.forEach] holds at
    least one resolved OCR word (and one mention word per OCR word), so
    [Math.min] and [Math.max] are applied to non-empty argument lists; when
    the polygons of the OCR words are quadrilaterals (eight finite numbers)
    the box of the group has maxX >= minX and maxY >= minY, and its pixel
    width maxX - minX and height maxY - minY are not negative. *)
Theorem collectGroups_box_nonnegative (values : list FieldMatch)
    (ocr : list OcrWord) (groupId : number) (group : Group) :
  (groupId, group) ∈ collectGroups values ocr →
  ocrWords group ≠ []
  ∧ length (words group) = length (ocrWords group)
  ∧ allXs (ocrWords group) ≠ [] ∧ allYs (ocrWords group) ≠ []
  ∧ (Forall quad ocr →
     (minX (ocrWords group) <= maxX (ocrWords group))%num
     ∧ (minY (ocrWords group) <= maxY (ocrWords group))%num
     ∧ (0 <= maxX (ocrWords group) - minX (ocrWords group))%num
     ∧ (0 <= maxY (ocrWords group) - minY (ocrWords group))%num).
Proof.
  intros Hin.
  pose proof (collectGroups_ok values ocr) as Hok. rewrite Forall_forall in Hok.
  destruct (Hok _ Hin) as (Hne & Hlen & Hall). simpl in *.
  do 4 (split; [auto with box |]).
  intros Hquad.
  assert (Forall quad (ocrWords group)) as Hq.
  { rewrite Forall_forall in Hquad. eapply Forall_impl; [exact Hall |]. done. }
  destruct (extent_nonnegative (allXs (ocrWords group)));
    [auto with box .. |].
  destruct (extent_nonnegative (allYs (ocrWords group)));
    [auto with box .. |].
  done.
Qed.

Lemma collectGroups_box_nonnegative_witness :
  let group := {| words := ["JOHN"; "1970"];
                  ocrWords := [word_of "JOHN" [10; 20; 60; 20; 60; 40; 10; 40]%Z;
                               word_of "1970" [300; 500; 360; 502; 358; 530; 299; 528]%Z] |} in
  ocrWords group ≠ []
  ∧ (minX (ocrWords group) <= maxX (ocrWords group))%num
  ∧ (0 <= maxY (ocrWords group) - minY (ocrWords group))%num.
Proof.
  intros group.
  destruct (collectGroups_box_nonnegative
              [mention "JOHN" 10 20 1; mention "X" 11 20 1; mention "1970" 300 500 1]
              sample_ocr (of_Z 1) group) as (H1 & _ & _ & _ & Hbox).
  - vm_compute. by left.
  - destruct Hbox as (H2 & _ & _ & H3).
    + repeat constructor; by apply quad_word_of.
    + exact (conj H1 (conj H2 H3)).
Defined.

(** C10 as stated fails: the group of a resolved mention whose word has a
    polygon without its fourth corner is not empty, yet its least and
    greatest coordinates are NaN, and neither maxX >= minX nor maxY >= minY
    holds, nor is the width or the height at least 0. *)
Lemma collectGroups_box_nonnegative_counterexample :
  let group := {| words := ["DOE"]; ocrWords := [short_polygon_word] |} in
  (of_Z 1, group) ∈ collectGroups [mention "DOE" 70 20 1] [short_polygon_word]
  ∧ maxY (ocrWords group) = NaN
  ∧ ¬ (minX (ocrWords group) <= maxX (ocrWords group))%num
  ∧ ¬ (minY (ocrWords group) <= maxY (ocrWords group))%num
  ∧ ¬ (0 <= maxX (ocrWords group) - minX (ocrWords group))%num
  ∧ ¬ (0 <= maxY (ocrWords group) - minY (ocrWords group))%num.
Proof.
  intros group. split; [vm_compute; by left |]. by vm_compute.
Qed.

Lemma filter_Boolean_object {A} (l : list A) : List.filter Boolean_object l = l.
Proof. induction l as [| a l IH]; simpl; by rewrite ?IH. Qed.

(** C8. When several OCR words have one top-left key, the lookup maps the
    key to the last of them in list order: whatever precedes [w], if no
    word after [w] has its key then the key is mapped to [w], and a mention
    with that coordinate key is resolved to [w]. *)
Theorem wordByTopLeft_last_write_wins (before after : list OcrWord) (w : OcrWord)
    (value : FieldMatch) (fieldLabel fieldKey : string) (pageWidth pageHeight : number) :
  Forall (λ later, topLeftKey later ≠ topLeftKey w) after →
  coordinateKey value = topLeftKey w →
  wordByTopLeft (before ++ w :: after)%list !! coordinateKey value = Some w
  ∧ mapFieldListToHighlights fieldLabel fieldKey [value] (before ++ w :: after)%list
      pageWidth pageHeight
    = [wordsToHighlight [w] pageWidth pageHeight
         (fieldLabel +:+ ": " +:+ word value) (highlightId fieldKey (groupId value))].
Proof.
  intros Hafter Hkey.
  assert (wordByTopLeft (before ++ w :: after)%list !! coordinateKey value = Some w)
    as Hget by (rewrite Hkey; by apply wordByTopLeft_last).
  split; [done |].
  unfold mapFieldListToHighlights, collectGroups. simpl.
  unfold addMention. by rewrite Hget.
Qed.

Lemma wordByTopLeft_last_write_wins_witness :
  let first := word_of "JOHN" [10; 20; 60; 20; 60; 40; 10; 40]%Z in
  let middle := word_of "MID" [70; 20; 120; 22; 119; 41; 70; 40]%Z in
  let last := word_of "JON" [10; 20; 55; 21; 55; 39; 10; 40]%Z in
  let other := word_of "DOE" [130; 20; 180; 22; 179; 41; 130; 40]%Z in
  wordByTopLeft [first; middle; last; other] !! "10,20" = Some last.
Proof.
  intros first middle last other.
  destruct (wordByTopLeft_last_write_wins [first; middle] [other] last
              (mention "JOHN" 10 20 1) "Name" "name" (of_Z 200) (of_Z 400))
    as [Hget _].
  - repeat constructor. by vm_compute.
  - by vm_compute.
  - exact Hget.
Defined.

(** ** Mentions that do not resolve *)

Lemma addMention_unresolved (ocr : list OcrWord) (groups : list (number * Group))
    (value : FieldMatch) :
  wordByTopLeft ocr !! coordinateKey value = None →
  addMention (wordByTopLeft ocr) groups value = groups.
Proof. intros H. unfold addMention. by rewrite H. Qed.

Lemma collectGroups_drop (before after : list FieldMatch) (bad : FieldMatch)
    (ocr : list OcrWord) :
  wordByTopLeft ocr !! coordinateKey bad = None →
  collectGroups (before ++ bad :: after) ocr = collectGroups (before ++ after) ocr.
Proof.
  intros H. unfold collectGroups. rewrite !foldl_app. simpl.
  by rewrite addMention_unresolved.
Qed.

(** Two resolved mentions of one group make one highlight over both words. *)
Lemma mapFieldListToHighlights_pair (fieldLabel fieldKey : string)
    (m1 m2 : FieldMatch) (w1 w2 : OcrWord) (ocr : list OcrWord)
    (pageWidth pageHeight : number) :
  sameValueZero (groupId m1) (groupId m2) = true →
  wordByTopLeft ocr !! coordinateKey m1 = Some w1 →
  wordByTopLeft ocr !! coordinateKey m2 = Some w2 →
  mapFieldListToHighlights fieldLabel fieldKey [m1; m2] ocr pageWidth pageHeight
  = [wordsToHighlight [w1; w2] pageWidth pageHeight
       (fieldLabel +:+ ": " +:+ word m1 +:+ " " +:+ word m2)
       (highlightId fieldKey (groupId m1))].
Proof.
  intros Hsame H1 H2. unfold mapFieldListToHighlights, collectGroups. simpl.
  unfold addMention. rewrite H1. simpl. rewrite H2. simpl. by rewrite Hsame.
Qed.

(** C4. A mention whose coordinate key is the top-left key of no OCR word is
    dropped on its own: the highlights are those of the mention list without
    it.  In particular, of three mentions of which one is such a mention
    and the other two resolve and share a group id, the single highlight is
    built from exactly the other two, in their order (whatever the position
    and the group id of the dropped mention). *)
Theorem unmatched_mention_dropped (fieldLabel fieldKey : string) (bad : FieldMatch)
    (ocr : list OcrWord) (pageWidth pageHeight : number) :
  (∀ w, w ∈ ocr → topLeftKey w ≠ coordinateKey bad) →
  (∀ before after : list FieldMatch,
     mapFieldListToHighlights fieldLabel fieldKey (before ++ bad :: after) ocr
       pageWidth pageHeight
     = mapFieldListToHighlights fieldLabel fieldKey (before ++ after) ocr
         pageWidth pageHeight)
  ∧ (∀ (before after : list FieldMatch) (m1 m2 : FieldMatch) (w1 w2 : OcrWord),
       (before ++ after)%list = [m1; m2] →
       sameValueZero (groupId m1) (groupId m2) = true →
       wordByTopLeft ocr !! coordinateKey m1 = Some w1 →
       wordByTopLeft ocr !! coordinateKey m2 = Some w2 →
       mapFieldListToHighlights fieldLabel fieldKey (before ++ bad :: after) ocr
         pageWidth pageHeight
       = [wordsToHighlight [w1; w2] pageWidth pageHeight
            (fieldLabel +:+ ": " +:+ word m1 +:+ " " +:+ word m2)
            (highlightId fieldKey (groupId m1))]).
Proof.
  intros Hbad%wordByTopLeft_None.
  assert (∀ before after : list FieldMatch,
            mapFieldListToHighlights fieldLabel fieldKey (before ++ bad :: after) ocr
              pageWidth pageHeight
            = mapFieldListToHighlights fieldLabel fieldKey (before ++ after) ocr
                pageWidth pageHeight) as Hdrop.
  { intros before after. unfold mapFieldListToHighlights.
    by rewrite collectGroups_drop. }
  split; [exact Hdrop |].
  intros before after m1 m2 w1 w2 Hrest Hsame H1 H2.
  rewrite Hdrop, Hrest. by apply mapFieldListToHighlights_pair.
Qed.

Lemma unmatched_mention_dropped_witness :
  mapFieldListToHighlights "Name" "name"
    [mention "JOHN" 10 20 1; mention "J." 11 20 1; mention "DOE" 70 20 1]
    sample_ocr (of_Z 200) (of_Z 400)
  = [wordsToHighlight
       [word_of "JOHN" [10; 20; 60; 20; 60; 40; 10; 40]%Z;
        word_of "DOE" [70; 20; 120; 22; 119; 41; 70; 40]%Z]
       (of_Z 200) (of_Z 400) "Name: JOHN DOE" "h-name-g-1"].
Proof.
  destruct (unmatched_mention_dropped "Name" "name" (mention "J." 11 20 1)
              sample_ocr (of_Z 200) (of_Z 400)) as [_ Hthree].
  - apply wordByTopLeft_None. by vm_compute.
  - apply (Hthree [mention "JOHN" 10 20 1] [mention "DOE" 70 20 1]
             (mention "JOHN" 10 20 1) (mention "DOE" 70 20 1)
             (word_of "JOHN" [10; 20; 60; 20; 60; 40; 10; 40]%Z)
             (word_of "DOE" [70; 20; 120; 22; 119; 41; 70; 40]%Z)).
    + reflexivity.
    + reflexivity.
    + by vm_compute.
    + by vm_compute.
Defined.

(** ** Order of the highlights *)

Lemma filter_filter_andb {A} (f g : A → bool) (l : list A) :
  List.filter f (List.filter g l) = List.filter (λ a, f a && g a) l.
Proof.
  induction l as [| a l IH]; simpl; [done |].
  destruct (g a); simpl; rewrite ?andb_true_r, ?andb_false_r;
    [destruct (f a) |]; by rewrite IH.
Qed.

Lemma existsb_sameValueZero_trans (ks : list number) (g a : number) :
  existsb (λ k, sameValueZero k g) ks = true → sameValueZero g a = true →
  existsb (λ k, sameValueZero k a) ks = true.
Proof.
  rewrite !existsb_exists. intros (k & Hk & Hkg) Hga. exists k.
  split; [done | by eapply sameValueZero_trans].
Qed.

Lemma foldl_addKey (ks gs : list number) :
  foldl addKey ks gs
  = (ks ++ List.filter (λ g, negb (existsb (λ k, sameValueZero k g) ks))
             (firstAppearance gs))%list.
Proof.
  revert ks. induction gs as [| g gs IH]; intros ks; simpl.
  - by rewrite app_nil_r.
  - rewrite IH. unfold addKey.
    destruct (existsb (λ k, sameValueZero k g) ks) eqn:E; simpl.
    + f_equal. rewrite filter_filter_andb. apply List.filter_ext. intros a.
      destruct (sameValueZero g a) eqn:Ha; simpl; [| by rewrite andb_true_r].
      by rewrite (existsb_sameValueZero_trans ks g a).
    + rewrite <- app_assoc. simpl. do 2 f_equal.
      rewrite filter_filter_andb. apply List.filter_ext. intros a.
      rewrite existsb_app. simpl. rewrite orb_false_r. apply negb_orb.
Qed.

Lemma keys_addMention (ocr : list OcrWord) (groups : list (number * Group))
    (value : FieldMatch) :
  keys (addMention (wordByTopLeft ocr) groups value)
  = if resolves ocr value then addKey (keys groups) (groupId value) else keys groups.
Proof.
  unfold addMention, resolves.
  destruct (wordByTopLeft ocr !! coordinateKey value); [| done].
  destruct (Map_get groups (groupId value)); apply keys_Map_set.
Qed.

(** The groups of a category stand in the order in which their ids first
    appear among the mentions that resolve. *)
Lemma keys_collectGroups (values : list FieldMatch) (ocr : list OcrWord) :
  keys (collectGroups values ocr)
  = firstAppearance (groupId <$> List.filter (resolves ocr) values).
Proof.
  unfold collectGroups.
  assert (∀ groups,
            keys (foldl (addMention (wordByTopLeft ocr)) groups values)
            = foldl addKey (keys groups)
                (groupId <$> List.filter (resolves ocr) values)) as H.
  { induction values as [| value values IH]; intros groups; simpl; [done |].
    rewrite IH, keys_addMention. by destruct (resolves ocr value). }
  rewrite H, foldl_addKey. simpl. apply List.forallb_filter_id.
  by apply forallb_forall.
Qed.

Lemma id_groupHighlight (fieldLabel fieldKey : string) (pageWidth pageHeight : number)
    (entry : number * Group) :
  id (groupHighlight fieldLabel fieldKey pageWidth pageHeight entry)
  = highlightId fieldKey entry.1.
Proof. by destruct entry. Qed.

Lemma ids_mapFieldListToHighlights (fieldLabel fieldKey : string)
    (values : list FieldMatch) (ocr : list OcrWord) (pageWidth pageHeight : number) :
  id <$> mapFieldListToHighlights fieldLabel fieldKey values ocr pageWidth pageHeight
  = highlightId fieldKey
      <$> firstAppearance (groupId <$> List.filter (resolves ocr) values).
Proof.
  unfold mapFieldListToHighlights.
  rewrite filter_Boolean_object, <- keys_collectGroups. unfold keys.
  rewrite <- !list_fmap_compose. apply list_fmap_ext.
  intros i entry _. apply id_groupHighlight.
Qed.

(** C5, as amended.  The final list holds the groups of name, then of
    date of birth, then of address, then of cause of death; within a
    category the groups stand in the order in which their group ids first
    appear among the mentions that resolve to an OCR word; and a mention
    list of which no mention resolves (the empty one included) yields no
    highlight at all. *)
Theorem mapFieldsToHighlights_order (fields : ParsedFieldValues) (ocr : list OcrWord)
    (pageWidth pageHeight : number) :
  id <$> mapFieldsToHighlights fields ocr pageWidth pageHeight
  = (categoryIds "name" (name fields) ocr
     ++ categoryIds "dateOfBirth" (dateOfBirth fields) ocr
     ++ categoryIds "address" (address fields) ocr
     ++ categoryIds "causeOfDeath" (causeOfDeath fields) ocr)%list
  ∧ ∀ (fieldLabel fieldKey : string) (unresolved : list FieldMatch),
      Forall (λ value, wordByTopLeft ocr !! coordinateKey value = None) unresolved →
      mapFieldListToHighlights fieldLabel fieldKey unresolved ocr pageWidth pageHeight
      = [].
Proof.
  split.
  - unfold mapFieldsToHighlights, categoryIds.
    rewrite ids_normalizeHighlights, !fmap_app.
    by rewrite !ids_mapFieldListToHighlights.
  - intros fieldLabel fieldKey unresolved Hnone.
    apply (fmap_nil_inv id). rewrite ids_mapFieldListToHighlights.
    replace (List.filter (resolves ocr) unresolved) with (@nil FieldMatch); [done |].
    symmetry. induction Hnone as [| value values Hv _ IH]; simpl; [done |].
    unfold resolves at 1. by rewrite Hv.
Qed.

Lemma mapFieldsToHighlights_order_witness :
  id <$> mapFieldsToHighlights
           {| name := late_group_mentions;
              dateOfBirth := [mention "1970" 300 500 7];
              address := [mention "NOWHERE" 1 1 3];
              causeOfDeath := [mention "DOE" 70 20 4; mention "JOHN" 10 20 4] |}
           sample_ocr (of_Z 400) (of_Z 600)
  = ["h-name-g-2"; "h-name-g-1"; "h-dateOfBirth-g-7"; "h-causeOfDeath-g-4"]
  ∧ mapFieldListToHighlights "Address" "address" [mention "NOWHERE" 1 1 3]
      sample_ocr (of_Z 400) (of_Z 600) = [].
Proof.
  destruct (mapFieldsToHighlights_order
              {| name := late_group_mentions;
                 dateOfBirth := [mention "1970" 300 500 7];
                 address := [mention "NOWHERE" 1 1 3];
                 causeOfDeath := [mention "DOE" 70 20 4; mention "JOHN" 10 20 4] |}
              sample_ocr (of_Z 400) (of_Z 600)) as [Hids Hnone].
  split; [exact Hids |].
  apply (Hnone "Address" "address" [mention "NOWHERE" 1 1 3]).
  repeat constructor.
Defined.

(** C5 as stated fails: group 1 appears first in the mention list, yet its
    first resolving mention comes after that of group 2, and the highlight
    of group 2 comes first. *)
Lemma mapFieldListToHighlights_order_counterexample :
  appearanceIds "name" late_group_mentions sample_ocr = ["h-name-g-1"; "h-name-g-2"]
  ∧ id <$> mapFieldListToHighlights "Name" "name" late_group_mentions sample_ocr
             (of_Z 400) (of_Z 600)
    = ["h-name-g-2"; "h-name-g-1"]
  ∧ id <$> mapFieldListToHighlights "Name" "name" late_group_mentions sample_ocr
             (of_Z 400) (of_Z 600)
    ≠ appearanceIds "name" late_group_mentions sample_ocr.
Proof. by vm_compute. Qed.

(** ** The single-word scenario *)

(** C6. One OCR word DOE with polygon [10,20,60,20,60,40,10,40] on a
    200 x 400 page and the single name mention (DOE, [10,20], group 1) give
    exactly one highlight, with x = 0.05, y = 0.05, width = 0.25,
    height = 0.05 and text "Name: DOE". *)
Theorem single_word_scenario :
  ∃ h,
    mapFieldsToHighlights
      {| name := [{| word := "DOE"; coordinate := (of_Z 10, of_Z 20);
                     groupId := of_Z 1 |}];
         dateOfBirth := []; address := []; causeOfDeath := [] |}
      [{| content := "DOE";
          polygon := of_Z <$> [10; 20; 60; 20; 60; 40; 10; 40]%Z |}]
      (of_Z 200) (of_Z 400)
    = [h]
    ∧ (x h == Fin 0.05)%num ∧ (y h == Fin 0.05)%num
    ∧ (width h == Fin 0.25)%num ∧ (height h == Fin 0.05)%num
    ∧ text h = "Name: DOE" ∧ id h = "h-name-g-1".
Proof. eexists. split; [reflexivity |]. by vm_compute. Qed.

(** The same scenario from the text of the model's response. *)
Example single_word_response :
  runDeathCertificatePipeline
    {| analyzeResult_pages :=
         [{| pageWidth := of_Z 200; pageHeight := of_Z 400;
             pageWords := [word_of "DOE" [10; 20; 60; 20; 60; 40; 10; 40]%Z] |}] |}
    (Some single_mention_response)
  = Return [{| id := "h-name-g-1"; text := "Name: DOE";
               x := Fin (10 # 200); y := Fin (20 # 400);
               width := Fin (50 # 200); height := Fin (20 # 400) |}].
Proof. by vm_compute. Qed.

(** ** The line serializer *)

Lemma string_app_assoc (s1 s2 s3 : string) :
  (s1 +:+ s2) +:+ s3 = s1 +:+ (s2 +:+ s3).
Proof.
  induction s1 as [| c s1 IH]; [reflexivity |].
  change (String c ((s1 +:+ s2) +:+ s3) = String c (s1 +:+ s2 +:+ s3)).
  by rewrite IH.
Qed.

Lemma join_cons_cons (sep x y : string) (rest : list string) :
  join sep (x :: y :: rest) = x +:+ sep +:+ join sep (y :: rest).
Proof. reflexivity. Qed.

(** Joining one more string to a non-empty list appends the separator and
    the string. *)
Lemma join_snoc (sep x y : string) (xs : list string) :
  join sep (x :: xs ++ [y]) = join sep (x :: xs) +:+ sep +:+ y.
Proof.
  revert x. induction xs as [| x' xs IH]; intros x; [done |].
  rewrite <- app_comm_cons, !join_cons_cons, IH.
  by rewrite !string_app_assoc.
Qed.

Lemma toTopLeftOcrLines_recursion (words : list OcrWord) :
  toTopLeftOcrLines words = serializedLines words.
Proof.
  unfold toTopLeftOcrLines. induction words as [| word rest IH]; [done |].
  destruct rest as [| word' rest]; [done |].
  rewrite !fmap_cons, join_cons_cons, <- fmap_cons, IH. reflexivity.
Qed.

(** ** Failure of the extraction *)

Lemma pipeline_no_text (page : Page) (pages : list Page) :
  let ocr := {| analyzeResult_pages := page :: pages |} in
  runDeathCertificatePipeline ocr None = Return []
  ∧ runDeathCertificatePipeline ocr (Some "") = Return [].
Proof. done. Qed.

Lemma pipeline_schema_mismatch (page : Page) (pages : list Page) (text : string)
    (v : json) :
  JSON_parse text = Return v → parsedFieldsSchema_safeParse v = None →
  runDeathCertificatePipeline {| analyzeResult_pages := page :: pages |} (Some text)
  = Return [].
Proof.
  intros Hparse Hschema. unfold runDeathCertificatePipeline. simpl.
  unfold extractFieldsFromGemini. destruct text as [| c text]; [done |].
  rewrite Hparse. simpl. by rewrite Hschema.
Qed.

(** A text that [JSON.parse] rejects makes the whole pipeline throw. *)
Lemma pipeline_parse_throws (page : Page) (pages : list Page) (text : string)
    (e : error) :
  text ≠ "" → JSON_parse text = Throw e →
  runDeathCertificatePipeline {| analyzeResult_pages := page :: pages |} (Some text)
  = Throw e.
Proof.
  intros Hne Hparse. unfold runDeathCertificatePipeline. simpl.
  unfold extractFieldsFromGemini. destruct text as [| c text]; [done |].
  by rewrite Hparse.
Qed.

(** The truncated response is rejected whatever depth the parser is
    allowed: its rejection is not for want of fuel. *)
Lemma truncated_response_rejected (fuel : nat) :
  parse_value fuel truncated_response = None.
Proof.
  do 6 (destruct fuel as [| fuel]; [reflexivity |]).
  reflexivity.
Qed.

(** C1.  An absent or empty response text and a JSON text that fails the
    schema make the pipeline return the empty highlight list; a text that
    is not JSON does not: [JSON.parse] throws a SyntaxError, nothing
    catches it, and it leaves the pipeline. *)
Theorem invalid_json_escapes :
  runDeathCertificatePipeline sample_result None = Return []
  ∧ runDeathCertificatePipeline sample_result (Some "") = Return []
  ∧ runDeathCertificatePipeline sample_result (Some incomplete_response) = Return []
  ∧ JSON_parse truncated_response = Throw SyntaxError
  ∧ runDeathCertificatePipeline sample_result (Some truncated_response)
    = Throw SyntaxError.
Proof. by vm_compute. Qed.

(** ** Containment of the pipeline's own boxes *)

Lemma num_div_positive (a : Q) (d : number) :
  (0 < d)%num → isNaN (Fin a / d)%num = false.
Proof.
  change 0%num with (Fin 0). unfold num_lt.
  destruct d as [| | q |]; cbn [num_ltb num_div isNaN]; try done.
  rewrite negb_true_iff. intros Hq%Qle_bool_false.
  destruct (Qeq_bool q 0) eqn:E; [| done].
  apply Qeq_bool_iff in E. lra.
Qed.

Lemma extremes_finite (args : list (option number)) :
  args ≠ [] → finite_args args →
  ∃ a b, Math_min args = Fin a ∧ Math_max args = Fin b.
Proof.
  intros Hne Hfin.
  destruct (Math_min_least args Hne Hfin) as [Hmin _].
  destruct (Math_max_greatest args Hne Hfin) as [Hmax _].
  pose proof (finite_args_numbers args Hfin) as Hnum. rewrite Forall_forall in Hnum.
  apply Hnum in Hmin, Hmax.
  destruct (Math_min args) as [| | a |], (Math_max args) as [| | b |]; try done.
  by exists a, b.
Qed.

(** On a page of positive width and height the box of a non-empty group of
    quadrilaterals has no NaN field. *)
Lemma wordsToHighlight_numeric (groupWords : list OcrWord)
    (pageWidth pageHeight : number) (text id : string) :
  groupWords ≠ [] → Forall quad groupWords →
  (0 < pageWidth)%num → (0 < pageHeight)%num →
  numeric (wordsToHighlight groupWords pageWidth pageHeight text id).
Proof.
  intros Hne Hq Hw Hh. unfold numeric, wordsToHighlight, minX, maxX, minY, maxY.
  cbn [x y width height].
  destruct (extremes_finite (allXs groupWords)) as (ax & bx & -> & ->);
    [auto with box .. |].
  destruct (extremes_finite (allYs groupWords)) as (ay & by' & -> & ->);
    [auto with box .. |].
  rewrite !num_sub_Fin. repeat split; by apply num_div_positive.
Qed.

Lemma mapFieldListToHighlights_numeric (fieldLabel fieldKey : string)
    (values : list FieldMatch) (ocr : list OcrWord) (pageWidth pageHeight : number) :
  Forall quad ocr → (0 < pageWidth)%num → (0 < pageHeight)%num →
  Forall numeric
    (mapFieldListToHighlights fieldLabel fieldKey values ocr pageWidth pageHeight).
Proof.
  intros Hquad Hw Hh. unfold mapFieldListToHighlights.
  rewrite filter_Boolean_object, Forall_fmap.
  eapply Forall_impl; [apply (collectGroups_ok values ocr) |].
  intros [g group] (Hne & _ & Hall). simpl in *.
  apply wordsToHighlight_numeric; try done.
  rewrite Forall_forall in Hquad. eapply Forall_impl; [exact Hall | done].
Qed.

(** Every highlight the pipeline returns lies in the unit square, when
    the OCR polygons are quadrilaterals and the page has positive width
    and height. *)
Lemma mapFieldsToHighlights_contained (fields : ParsedFieldValues)
    (ocr : list OcrWord) (pageWidth pageHeight : number) :
  Forall quad ocr → (0 < pageWidth)%num → (0 < pageHeight)%num →
  Forall contained (mapFieldsToHighlights fields ocr pageWidth pageHeight).
Proof.
  intros Hquad Hw Hh. unfold mapFieldsToHighlights, normalizeHighlights.
  rewrite Forall_fmap.
  eapply Forall_impl; [| intros h; apply normalizeHighlight_contained].
  rewrite !Forall_app. repeat split; by apply mapFieldListToHighlights_numeric.
Qed.

(** ** Further properties of the normalizer *)

Lemma normalizeHighlight_clamp (h : Highlight) :
  normalizeHighlight h
  = {| id := id h; text := text h;
       x := clamp 0 1 (x h);
       y := clamp 0 1 (y h);
       width := clamp 0 (1 - clamp 0 1 (x h)) (width h);
       height := clamp 0 (1 - clamp 0 1 (y h)) (height h) |}.
Proof. reflexivity. Qed.

(** Clamping between a finite lower bound and any upper bound twice is
    clamping once. *)
Lemma clamp_idempotent (lo : Q) (hi v : number) :
  clamp (Fin lo) hi (clamp (Fin lo) hi v) = clamp (Fin lo) hi v.
Proof.
  unfold clamp, Math_max, Math_min. simpl.
  unfold Math_max_step, Math_min_step.
  destruct hi as [| | h |], v as [| | q |]; simpl; try reflexivity;
    Qle_cases; try reflexivity; lra.
Qed.

(** X1. Normalizing an already normalized list changes nothing: the
    normalizer is idempotent on every input, NaN fields included. *)
Theorem normalizeHighlights_idempotent (highlights : list Highlight) :
  normalizeHighlights (normalizeHighlights highlights) = normalizeHighlights highlights.
Proof.
  unfold normalizeHighlights. rewrite <- list_fmap_compose.
  apply list_fmap_ext. intros _ h _. simpl.
  rewrite (normalizeHighlight_clamp (normalizeHighlight h)).
  rewrite (normalizeHighlight_clamp h). cbn [id text x y width height].
  change 0%num with (Fin 0).
  by rewrite !clamp_idempotent.
Qed.

(** A value within finite bounds is clamped to a number equal to it. *)
Lemma clamp_in_range (lo hi q : Q) :
  (lo <= q <= hi)%Q →
  ∃ r, clamp (Fin lo) (Fin hi) (Fin q) = Fin r ∧ (r == q)%Q.
Proof.
  intros Hq. unfold clamp, Math_max, Math_min. simpl.
  unfold Math_max_step, Math_min_step. simpl.
  Qle_cases; eexists; (split; [reflexivity | lra]).
Qed.

Lemma num_eq_Fin (p q : Q) : (Fin p == Fin q)%num ↔ (p == q)%Q.
Proof. unfold num_eq. simpl. apply Qeq_bool_iff. Qed.

Lemma normalizeHighlight_in_page (h : Highlight) :
  in_page h → same_box (normalizeHighlight h) h.
Proof.
  intros (Hx0 & Hx1 & Hy0 & Hy1 & Hw0 & Hw1 & Hh0 & Hh1).
  rewrite normalizeHighlight_clamp. unfold same_box. cbn [id text x y width height].
  destruct (x h) as [| | a |], (width h) as [| | w |]; try done.
  destruct (y h) as [| | b |], (height h) as [| | c |]; try done.
  change 0%num with (Fin 0) in *. change 1%num with (Fin 1) in *.
  rewrite !num_sub_Fin in *. rewrite num_le_Fin in *.
  destruct (clamp_in_range 0 1 a) as (ra & -> & Hra); [lra |].
  destruct (clamp_in_range 0 1 b) as (rb & -> & Hrb); [lra |].
  rewrite !num_sub_Fin.
  destruct (clamp_in_range 0 (1 + - ra) w) as (rw & -> & Hrw); [lra |].
  destruct (clamp_in_range 0 (1 + - rb) c) as (rc & -> & Hrc); [lra |].
  rewrite !num_eq_Fin. done.
Qed.

(** X2. A box that lies in the unit square as the normalizer measures it
    (0 <= x <= 1, 0 <= y <= 1, 0 <= width <= 1 - x, 0 <= height <= 1 - y,
    with the differences 1 - x and 1 - y that the normalizer computes)
    passes the normalizer unchanged: same id and text, numerically equal
    geometry.  The normalizer only reshapes what is out of the page. *)
Theorem normalizeHighlights_in_page (highlights : list Highlight) :
  Forall in_page highlights →
  Forall2 same_box (normalizeHighlights highlights) highlights.
Proof.
  unfold normalizeHighlights. induction 1 as [| h hs Hh _ IH]; simpl.
  - constructor.
  - constructor; [by apply normalizeHighlight_in_page | exact IH].
Qed.

Lemma normalizeHighlights_in_page_witness :
  let inside := [ {| id := "h-name"; text := "Name: JOHN A DOE";
                     x := Fin 0.07; y := Fin 0.15;
                     width := Fin 0.34; height := Fin 0.05 |};
                  {| id := "h-edge"; text := "Edge";
                     x := Fin 0.5; y := Fin 0;
                     width := Fin 0.5; height := Fin 1 |} ] in
  Forall2 same_box (normalizeHighlights inside) inside.
Proof.
  intros inside. apply (normalizeHighlights_in_page inside).
  repeat constructor.
Defined.

(** ** Polygons that are not quadrilaterals *)

Lemma foldl_Math_min_step_NaN (ns : list number) :
  foldl Math_min_step NaN ns = NaN.
Proof. induction ns as [| n ns IH]; [done | exact IH]. Qed.

Lemma foldl_Math_max_step_NaN (ns : list number) :
  foldl Math_max_step NaN ns = NaN.
Proof. induction ns as [| n ns IH]; [done | exact IH]. Qed.

(** [Math.min] and [Math.max] are NaN as soon as one argument is
    [undefined] or NaN. *)
Lemma Math_min_NaN (args : list (option number)) :
  NaN ∈ ToNumber <$> args → Math_min args = NaN.
Proof.
  unfold Math_min. generalize PosInf. generalize (ToNumber <$> args).
  intros ns. induction ns as [| n ns IH]; intros acc Hin.
  - by apply elem_of_nil in Hin.
  - simpl. apply elem_of_cons in Hin as [<- | Hin].
    + unfold Math_min_step at 2. rewrite orb_true_r.
      apply foldl_Math_min_step_NaN.
    + by apply IH.
Qed.

Lemma Math_max_NaN (args : list (option number)) :
  NaN ∈ ToNumber <$> args → Math_max args = NaN.
Proof.
  unfold Math_max. generalize NegInf. generalize (ToNumber <$> args).
  intros ns. induction ns as [| n ns IH]; intros acc Hin.
  - by apply elem_of_nil in Hin.
  - simpl. apply elem_of_cons in Hin as [<- | Hin].
    + unfold Math_max_step at 2. rewrite orb_true_r.
      apply foldl_Math_max_step_NaN.
    + by apply IH.
Qed.

(** X3. A member word whose polygon has fewer than eight numbers makes the
    box of its group NaN in y and height, on any page, and the normalizer
    leaves NaN as it is: such a highlight is not contained in the unit
    square.  Nothing in the pipeline guards against a short polygon. *)
Theorem short_polygon_NaN (groupWords : list OcrWord) (word : OcrWord)
    (pageWidth pageHeight : number) (text id : string) :
  word ∈ groupWords → (length (polygon word) < 8)%nat →
  let h := normalizeHighlight
             (wordsToHighlight groupWords pageWidth pageHeight text id) in
  y h = NaN ∧ height h = NaN ∧ ¬ contained h.
Proof.
  intros Hw Hlen h.
  assert (NaN ∈ ToNumber <$> allYs groupWords) as Hnan.
  { apply list_elem_of_fmap. exists None. split; [done |].
    apply list_elem_of_bind. exists word. split; [| done].
    rewrite (lookup_ge_None_2 (polygon word) 7) by lia.
    do 3 right. by left. }
  assert (y h = NaN) as Hy.
  { subst h. rewrite normalizeHighlight_clamp. cbn [y wordsToHighlight].
    unfold minY. by rewrite (Math_min_NaN _ Hnan). }
  assert (height h = NaN) as Hh.
  { subst h. rewrite normalizeHighlight_clamp. cbn [y height wordsToHighlight].
    unfold minY, maxY. by rewrite (Math_min_NaN _ Hnan), (Math_max_NaN _ Hnan). }
  split; [done |]. split; [done |].
  intros (_ & Hc & _). by rewrite Hy in Hc.
Qed.

Lemma short_polygon_NaN_witness :
  let short := {| content := "DOE"; polygon := of_Z <$> [10; 20; 60; 20; 60; 40]%Z |} in
  let h := normalizeHighlight
             (wordsToHighlight (scattered_words ++ [short])%list
                (of_Z 400) (of_Z 600) "Name: DOE" "h-name-g-1") in
  y h = NaN ∧ height h = NaN ∧ ¬ contained h.
Proof.
  intros short.
  apply (short_polygon_NaN (scattered_words ++ [short])%list short).
  - apply elem_of_app. right. by left.
  - simpl. lia.
Defined.

(** ** The two schemas *)

#[local] Set Warnings "-clear-no-such-hyp".

Lemma z_number_schema (v : option json) :
  is_Some (z_number v) ↔ schema_number v = true.
Proof.
  unfold is_Some. destruct v as [[| | n | | |] |]; simpl; try naive_solver.
  destruct (isNaN n); naive_solver.
Qed.

Lemma z_string_schema (v : option json) :
  is_Some (z_string v) ↔ schema_string v = true.
Proof. unfold is_Some. destruct v as [[| | | s | |] |]; naive_solver. Qed.

Lemma z_tuple_schema (v : option json) :
  is_Some (z_tuple_number_number v) ↔ schema_coordinate v = true.
Proof.
  destruct v as [[| | | | items |] |]; simpl;
    try (unfold is_Some; naive_solver).
  destruct items as [| a [| b [| c items]]]; simpl;
    try (unfold is_Some; naive_solver).
  unfold is_Some.
  destruct a as [| | na | | |], b as [| | nb | | |]; try naive_solver;
    destruct (isNaN na); try naive_solver; destruct (isNaN nb); naive_solver.
Qed.

Lemma fieldItem_schema (v : json) :
  is_Some (fieldItem v) ↔ fieldItemProperty_items v = true.
Proof.
  destruct v as [| | | | | members]; simpl; try (unfold is_Some; naive_solver).
  rewrite !andb_true_iff, <- z_string_schema, <- z_tuple_schema, <- z_number_schema.
  unfold is_Some.
  destruct (z_string _), (z_tuple_number_number _), (z_number _); naive_solver.
Qed.

Lemma fieldItemSchema_schema (v : option json) :
  is_Some (fieldItemSchema v) ↔ fieldItemProperty v = true.
Proof.
  destruct v as [[| | | | items |] |]; simpl; try (unfold is_Some; naive_solver).
  rewrite mapM_is_Some, forallb_forall, Forall_forall.
  split; intros H item Hin.
  - apply fieldItem_schema, H. by apply list_elem_of_In.
  - apply fieldItem_schema, H. by apply list_elem_of_In.
Qed.

(** X4. The schema sent to the model and the schema that validates its
    response admit the same JSON values: [parsedFieldsSchema.safeParse]
    succeeds exactly on the values that conform to [responseJsonSchema]. *)
Theorem schemas_agree (v : json) :
  is_Some (parsedFieldsSchema_safeParse v) ↔ responseJsonSchema v = true.
Proof.
  destruct v as [| | | | | members]; simpl; try (unfold is_Some; naive_solver).
  rewrite !andb_true_iff, <- !fieldItemSchema_schema.
  unfold is_Some.
  destruct (fieldItemSchema (get_member "name" members)),
    (fieldItemSchema (get_member "dateOfBirth" members)),
    (fieldItemSchema (get_member "address" members)),
    (fieldItemSchema (get_member "causeOfDeath" members)); naive_solver.
Qed.

Lemma fieldItem_fieldMatch_json (m : FieldMatch) :
  numeric_match m → fieldItem (fieldMatch_json m) = Some m.
Proof.
  destruct m as [w [cx cy] g]. intros (Hx & Hy & Hg). simpl in *.
  by rewrite Hx, Hy, Hg.
Qed.

Lemma fieldItemSchema_fieldMatch_json (values : list FieldMatch) :
  Forall numeric_match values →
  fieldItemSchema (Some (JArray (fieldMatch_json <$> values))) = Some values.
Proof.
  intros H. simpl. apply mapM_fmap_Forall_Some.
  eapply Forall_impl; [exact H |]. apply fieldItem_fieldMatch_json.
Qed.

(** X5. Validation returns the data of a well-shaped response as it is:
    the object with the four categories, each the array of the items
    [{word, coordinate: [x, y], groupId}] of its mentions, validates to
    exactly these mentions, in the same order, with nothing coerced. *)
Theorem safeParse_fields_json (fields : ParsedFieldValues) :
  numeric_fields fields →
  parsedFieldsSchema_safeParse (fields_json fields) = Some fields.
Proof.
  intros (Hn & Hd & Ha & Hc). destruct fields as [n d a c].
  unfold parsedFieldsSchema_safeParse, fields_json.
  cbn [name dateOfBirth address causeOfDeath] in *.
  change (get_member "name" _) with (Some (JArray (fieldMatch_json <$> n))).
  change (get_member "dateOfBirth" _) with (Some (JArray (fieldMatch_json <$> d))).
  change (get_member "address" _) with (Some (JArray (fieldMatch_json <$> a))).
  change (get_member "causeOfDeath" _) with (Some (JArray (fieldMatch_json <$> c))).
  by rewrite !fieldItemSchema_fieldMatch_json.
Qed.

Lemma safeParse_fields_json_witness :
  let fields := {| name := [mention "JOHN" 10 20 1; mention "DOE" 70 20 1];
                   dateOfBirth := [mention "1970" 300 500 2];
                   address := []; causeOfDeath := [] |} in
  parsedFieldsSchema_safeParse (fields_json fields) = Some fields.
Proof.
  intros fields. apply (safeParse_fields_json fields).
  repeat split; repeat constructor.
Defined.

Lemma get_member_other (key k : string) (v : json)
    (before after : list (string * json)) :
  k ≠ key →
  get_member key (before ++ (k, v) :: after) = get_member key (before ++ after).
Proof.
  intros Hne. induction before as [| [k' v'] before IH]; simpl.
  - by destruct (get_member key after); [| destruct (decide (k = key))].
  - by rewrite IH.
Qed.

(** X6. Keys the schema does not name are ignored: a member under any
    other key, anywhere in the response object, changes nothing of the
    validation result, and neither does a member of an item under a key
    other than word, coordinate and groupId. *)
Theorem unknown_keys_ignored (k : string) (v : json)
    (before after : list (string * json)) :
  (k ∉ categoryKeys →
   parsedFieldsSchema_safeParse (JObject (before ++ (k, v) :: after))
   = parsedFieldsSchema_safeParse (JObject (before ++ after)))
  ∧ (k ∉ ["word"; "coordinate"; "groupId"] →
     fieldItem (JObject (before ++ (k, v) :: after))
     = fieldItem (JObject (before ++ after))).
Proof.
  split; intros Hk; simpl; rewrite !get_member_other; try done;
    intros ->; apply Hk; unfold categoryKeys; set_solver.
Qed.

(** X7. Validation is all or nothing: when any of the four categories is
    missing, or holds one item that fails the item schema, the whole
    response is rejected, whatever the other categories hold. *)
Theorem validation_all_or_nothing (members : list (string * json)) (key : string) :
  key ∈ categoryKeys →
  get_member key members = None
  ∨ (∃ items bad, get_member key members = Some (JArray items)
                  ∧ bad ∈ items ∧ fieldItem bad = None) →
  parsedFieldsSchema_safeParse (JObject members) = None.
Proof.
  intros Hkey Hbad.
  assert (fieldItemSchema (get_member key members) = None) as Hnone.
  { destruct Hbad as [-> | (items & bad & -> & Hin & Hfail)]; [done |].
    simpl. apply mapM_None_2, Exists_exists. eauto. }
  unfold categoryKeys in Hkey. simpl.
  repeat (apply elem_of_cons in Hkey as [-> | Hkey];
          [rewrite Hnone; by repeat case_match |]).
  by apply elem_of_nil in Hkey.
Qed.

Lemma validation_all_or_nothing_witness :
  parsedFieldsSchema_safeParse
    (JObject [("name", JArray [fieldMatch_json (mention "JOHN" 10 20 1)]);
              ("dateOfBirth", JArray []);
              ("address",
               JArray [fieldMatch_json (mention "MAIN" 70 20 1);
                       JObject [("word", JString "ST");
                                ("coordinate", JArray [JNumber (of_Z 1)]);
                                ("groupId", JNumber (of_Z 1))]]);
              ("causeOfDeath", JArray [])])
  = None.
Proof.
  apply (validation_all_or_nothing _ "address").
  - unfold categoryKeys. do 2 right. by left.
  - right. eexists _, _. split; [reflexivity |]. split; [right; by left | reflexivity].
Defined.

(** ** The groups of a category, declaratively *)

Lemma sameValueZero_sym (a b : number) : sameValueZero a b = sameValueZero b a.
Proof. destruct a, b; simpl; try done. apply Qeq_bool_comm. Qed.

Lemma sameValueZero_congr (a b c : number) :
  sameValueZero a b = true → sameValueZero a c = sameValueZero b c.
Proof.
  intros Hab. destruct (sameValueZero b c) eqn:Hbc.
  - by eapply sameValueZero_trans.
  - destruct (sameValueZero a c) eqn:Hac; [| done].
    rewrite <- Hbc. symmetry. apply (sameValueZero_trans b a c); [| done].
    by rewrite sameValueZero_sym.
Qed.

Lemma existsb_filter_negb {A} (f : A → bool) (l : list A) :
  existsb f (List.filter (λ a, negb (f a)) l) = false.
Proof.
  induction l as [| a l IH]; simpl; [done |].
  destruct (f a) eqn:E; simpl; [done |]. by rewrite E, IH.
Qed.

Lemma existsb_filter_false {A} (f g : A → bool) (l : list A) :
  existsb f l = false → existsb f (List.filter g l) = false.
Proof.
  induction l as [| a l IH]; simpl; [done |].
  intros [Ha Hl]%orb_false_iff. destruct (g a); simpl; rewrite ?Ha; by apply IH.
Qed.

Lemma distinctKeys_filter (g : number → bool) (ks : list number) :
  distinctKeys ks = true → distinctKeys (List.filter g ks) = true.
Proof.
  induction ks as [| k ks IH]; simpl; [done |].
  intros [Hk Hks]%andb_true_iff. destruct (g k); simpl; [| by apply IH].
  apply andb_true_iff. split; [| by apply IH].
  apply negb_true_iff, existsb_filter_false. by apply negb_true_iff.
Qed.

Lemma distinctKeys_firstAppearance (ids : list number) :
  distinctKeys (firstAppearance ids) = true.
Proof.
  induction ids as [| g ids IH]; simpl; [done |].
  apply andb_true_iff. split.
  - apply negb_true_iff, (existsb_filter_negb (sameValueZero g)).
  - by apply distinctKeys_filter.
Qed.

(** Membership up to [sameValueZero] is that of the list scanned. *)
Lemma existsb_firstAppearance (g : number) (ids : list number) :
  existsb (λ k, sameValueZero k g) (firstAppearance ids)
  = existsb (λ k, sameValueZero k g) ids.
Proof.
  induction ids as [| a ids IH]; simpl; [done |].
  destruct (sameValueZero a g) eqn:Ha; simpl; [done |].
  rewrite <- IH. clear IH. induction (firstAppearance ids) as [| b l IHl]; [done |].
  simpl. destruct (sameValueZero a b) eqn:Hab; simpl; rewrite IHl; [| done].
  by rewrite <- (sameValueZero_congr a b g Hab), Ha.
Qed.

Lemma Map_get_keys {V} (m : list (number * V)) (key : number) :
  is_Some (Map_get m key) ↔ existsb (λ k, sameValueZero k key) (keys m) = true.
Proof.
  unfold keys. induction m as [| [k v] m IH]; simpl.
  - split; [by intros [? ?] | done].
  - destruct (sameValueZero k key); simpl; [| exact IH].
    split; [done | by eexists].
Qed.

Lemma Map_get_elem {V} (m : list (number * V)) (key : number) (v : V) :
  Map_get m key = Some v → ∃ k, (k, v) ∈ m ∧ sameValueZero k key = true.
Proof.
  induction m as [| [k v'] m IH]; simpl; [done |].
  destruct (sameValueZero k key) eqn:E.
  - intros [= ->]. exists k. split; [by left | done].
  - intros (k' & Hin & Hk')%IH. exists k'. split; [by right | done].
Qed.

(** With distinct keys, [set] touches the one entry of the key and no
    other. *)
Lemma elem_of_Map_set_distinct {V} (m : list (number * V)) (key : number)
    (value : V) (k : number) (v : V) :
  distinctKeys (keys m) = true →
  (k, v) ∈ Map_set m key value →
  ((k, v) ∈ m ∧ sameValueZero k key = false)
  ∨ (v = value ∧ sameValueZero k key = true).
Proof.
  unfold keys. induction m as [| [k' v'] m IH]; simpl.
  - intros _ [= -> ->]%list_elem_of_singleton. right.
    split; [done | apply sameValueZero_refl].
  - intros [Hk' Hm]%andb_true_iff. apply negb_true_iff in Hk'.
    destruct (sameValueZero k' key) eqn:E.
    + intros [[= -> ->] | Hin]%elem_of_cons; [by right |].
      left. split; [by right |].
      destruct (sameValueZero k key) eqn:Hk; [| done].
      rewrite <- Hk'. symmetry. apply existsb_exists. exists k. split.
      * apply list_elem_of_In, list_elem_of_fmap. by exists (k, v).
      * rewrite (sameValueZero_congr k' key k E). by rewrite sameValueZero_sym.
    + intros [[= -> ->] | Hin]%elem_of_cons; [left; split; [by left | done] |].
      destruct (IH Hm Hin) as [[Hin' Hne] | Heq]; [| by right].
      left. split; [by right | done].
Qed.

Lemma collectGroups_snoc (values : list FieldMatch) (value : FieldMatch)
    (ocr : list OcrWord) :
  collectGroups (values ++ [value]) ocr
  = addMention (wordByTopLeft ocr) (collectGroups values ocr) value.
Proof. unfold collectGroups. by rewrite foldl_app. Qed.

Lemma distinctKeys_collectGroups (values : list FieldMatch) (ocr : list OcrWord) :
  distinctKeys (keys (collectGroups values ocr)) = true.
Proof. rewrite keys_collectGroups. apply distinctKeys_firstAppearance. Qed.

Lemma groupMembers_snoc (ocr : list OcrWord) (values : list FieldMatch)
    (value : FieldMatch) (g : number) :
  groupMembers ocr (values ++ [value]) g
  = (groupMembers ocr values g
     ++ if resolves ocr value && sameValueZero g (groupId value)
        then [value] else [])%list.
Proof.
  unfold groupMembers. rewrite List.filter_app. simpl.
  by destruct (resolves ocr value && sameValueZero g (groupId value)).
Qed.

Lemma groupMembers_congr (ocr : list OcrWord) (values : list FieldMatch)
    (a b : number) :
  sameValueZero a b = true → groupMembers ocr values a = groupMembers ocr values b.
Proof.
  intros Hab. unfold groupMembers. apply List.filter_ext. intros value.
  by rewrite (sameValueZero_congr a b _ Hab).
Qed.

Lemma groupMembers_nil (ocr : list OcrWord) (values : list FieldMatch)
    (k g : number) :
  existsb (λ a, sameValueZero a g) (groupId <$> List.filter (resolves ocr) values)
  = false →
  sameValueZero k g = true → groupMembers ocr values k = [].
Proof.
  intros Hnone Hk. unfold groupMembers.
  induction values as [| value values IH]; simpl in *; [done |].
  destruct (resolves ocr value); simpl in *; [| by apply IH].
  apply orb_false_iff in Hnone as [Hv Hrest].
  rewrite (sameValueZero_congr k g _ Hk), sameValueZero_sym, Hv. by apply IH.
Qed.

Lemma groupOf_snoc_other (ocr : list OcrWord) (values : list FieldMatch)
    (value : FieldMatch) (k : number) :
  resolves ocr value && sameValueZero k (groupId value) = false →
  groupOf ocr (values ++ [value]) k = groupOf ocr values k.
Proof.
  intros H. unfold groupOf. rewrite groupMembers_snoc, H. by rewrite app_nil_r.
Qed.

Lemma groupOf_snoc_member (ocr : list OcrWord) (values : list FieldMatch)
    (value : FieldMatch) (w : OcrWord) (k : number) :
  wordByTopLeft ocr !! coordinateKey value = Some w →
  sameValueZero k (groupId value) = true →
  groupOf ocr (values ++ [value]) k
  = {| words := (words (groupOf ocr values k) ++ [word value])%list;
       ocrWords := (ocrWords (groupOf ocr values k) ++ [w])%list |}.
Proof.
  intros Hw Hk. unfold groupOf, matchedWords.
  rewrite groupMembers_snoc. unfold resolves. rewrite Hw, Hk. simpl.
  rewrite fmap_app, omap_app. simpl. by rewrite Hw.
Qed.

(** Every entry of the map holds the group of its key. *)
Lemma collectGroups_entries (values : list FieldMatch) (ocr : list OcrWord)
    (k : number) (group : Group) :
  (k, group) ∈ collectGroups values ocr → group = groupOf ocr values k.
Proof.
  revert k group. induction values as [| value values IH] using rev_ind;
    intros k group Hin.
  - by apply elem_of_nil in Hin.
  - rewrite collectGroups_snoc in Hin. unfold addMention in Hin.
    destruct (wordByTopLeft ocr !! coordinateKey value) as [w |] eqn:Hw.
    + pose proof (distinctKeys_collectGroups values ocr) as Hdistinct.
      destruct (Map_get (collectGroups values ocr) (groupId value))
        as [existing |] eqn:Hget;
        apply elem_of_Map_set_distinct in Hin as [[Hin Hk] | [-> Hk]]; try done.
      * rewrite groupOf_snoc_other by (by rewrite Hk, andb_false_r). by apply IH.
      * apply Map_get_elem in Hget as (k0 & Hin0 & Hk0).
        rewrite (groupOf_snoc_member _ _ _ w) by done.
        rewrite (IH _ _ Hin0). unfold groupOf.
        rewrite (groupMembers_congr ocr values k0 k); [done |].
        rewrite (sameValueZero_congr k0 (groupId value) k Hk0).
        by rewrite sameValueZero_sym.
      * rewrite groupOf_snoc_other by (by rewrite Hk, andb_false_r). by apply IH.
      * rewrite (groupOf_snoc_member _ _ _ w) by done. unfold groupOf.
        rewrite (groupMembers_nil ocr values k (groupId value)); [done | | done].
        rewrite <- existsb_firstAppearance, <- keys_collectGroups.
        destruct (existsb _ _) eqn:E; [| done].
        apply Map_get_keys in E as [? E]. congruence.
    + rewrite groupOf_snoc_other by (unfold resolves; by rewrite Hw).
      by apply IH.
Qed.

Lemma pairs_of_keys {V} (f : number → V) (m : list (number * V)) :
  (∀ k v, (k, v) ∈ m → v = f k) → m = (λ k, (k, f k)) <$> keys m.
Proof.
  unfold keys. induction m as [| [k v] m IH]; intros H; [done |].
  rewrite !fmap_cons. simpl. f_equal.
  - f_equal. apply H. by left.
  - apply IH. intros k' v' Hin. apply H. by right.
Qed.

Lemma collectGroups_groupOf (values : list FieldMatch) (ocr : list OcrWord) :
  collectGroups values ocr
  = (λ g, (g, groupOf ocr values g)) <$> groupIds ocr values.
Proof.
  unfold groupIds. rewrite <- keys_collectGroups.
  apply pairs_of_keys. apply collectGroups_entries.
Qed.

(** X8. The highlights of a category, declaratively: one highlight per
    distinct group id among the mentions that resolve, in the order of
    their first resolving mention; its box is computed over the OCR words
    of exactly the resolving mentions of the group, and its text is the
    label, a colon and their words joined by single spaces, both in the
    order of the mention list. *)
Theorem mapFieldListToHighlights_groups (fieldLabel fieldKey : string)
    (values : list FieldMatch) (ocr : list OcrWord) (pageWidth pageHeight : number) :
  mapFieldListToHighlights fieldLabel fieldKey values ocr pageWidth pageHeight
  = (λ g,
       wordsToHighlight (matchedWords ocr (groupMembers ocr values g))
         pageWidth pageHeight
         (fieldLabel +:+ ": " +:+ join " " (word <$> groupMembers ocr values g))
         (highlightId fieldKey g))
      <$> groupIds ocr values.
Proof.
  unfold mapFieldListToHighlights.
  rewrite filter_Boolean_object, collectGroups_groupOf, <- list_fmap_compose.
  by apply list_fmap_ext.
Qed.

(** X9. A category never yields two highlights of one group, nor more
    highlights than it has mentions: the keys of the groups map are
    pairwise different values, and there is one highlight per key. *)
Theorem one_highlight_per_group (fieldLabel fieldKey : string)
    (values : list FieldMatch) (ocr : list OcrWord) (pageWidth pageHeight : number) :
  distinctKeys (keys (collectGroups values ocr)) = true
  ∧ length (mapFieldListToHighlights fieldLabel fieldKey values ocr
              pageWidth pageHeight)
    = length (collectGroups values ocr)
  ∧ (length (collectGroups values ocr) ≤ length values)%nat.
Proof.
  split; [apply distinctKeys_collectGroups |].
  split.
  - unfold mapFieldListToHighlights.
    by rewrite filter_Boolean_object, length_fmap.
  - unfold collectGroups.
    assert (∀ groups : list (number * Group),
              (length (foldl (addMention (wordByTopLeft ocr)) groups values)
               ≤ length groups + length values)%nat) as H.
    { induction values as [| value values IH]; intros groups; simpl; [lia |].
      etrans; [apply IH |].
      assert (length (addMention (wordByTopLeft ocr) groups value)
              ≤ S (length groups))%nat; [| lia].
      rewrite <- (length_fmap fst (addMention _ _ _)), <- (length_fmap fst groups).
      change (length (keys (addMention (wordByTopLeft ocr) groups value))
              ≤ S (length (keys groups)))%nat.
      rewrite keys_addMention.
      destruct (resolves ocr value); [| lia]. unfold addKey.
      destruct (existsb _ _); rewrite ?length_app; simpl; lia. }
    apply (H []).
Qed.

(** ** Resolution of a mention that echoes an OCR word *)

(** The same value prints the same text. *)
Lemma Number_toString_sameValueZero (a b : number) :
  sameValueZero a b = true → Number_toString a = Number_toString b.
Proof.
  destruct a as [| | p |], b as [| | q |]; simpl; try done.
  intros H%Qeq_bool_iff. by rewrite (Qred_complete p q H).
Qed.

Lemma wordByTopLeft_unique (ocr : list OcrWord) (w : OcrWord) :
  NoDup (topLeftKey <$> ocr) → w ∈ ocr →
  wordByTopLeft ocr !! topLeftKey w = Some w.
Proof.
  intros Hnodup (before & after & ->)%list_elem_of_split.
  apply wordByTopLeft_last.
  rewrite fmap_app, fmap_cons in Hnodup.
  apply NoDup_app in Hnodup as (_ & _ & Hafter).
  apply NoDup_cons in Hafter as [Hnotin _].
  apply Forall_forall. intros later Hin Heq. apply Hnotin.
  rewrite <- Heq. by apply list_elem_of_fmap_2.
Qed.

(** X10. A mention whose coordinate has the values of the top-left corner
    of an OCR word (polygon[0] and polygon[1], 0 where undefined) always
    resolves, and to a word with that same corner key; when no two OCR
    words share a key, it resolves to that very word. *)
Theorem echoed_corner_resolves (ocr : list OcrWord) (w : OcrWord) (value : FieldMatch) :
  w ∈ ocr →
  sameValueZero (coordinate value).1 (default 0%num (polygon w !! 0%nat)) = true →
  sameValueZero (coordinate value).2 (default 0%num (polygon w !! 1%nat)) = true →
  (∃ w', wordByTopLeft ocr !! coordinateKey value = Some w'
         ∧ topLeftKey w' = topLeftKey w)
  ∧ (NoDup (topLeftKey <$> ocr) →
     wordByTopLeft ocr !! coordinateKey value = Some w).
Proof.
  intros Hw Hx Hy.
  assert (coordinateKey value = topLeftKey w) as Hkey.
  { unfold coordinateKey, topLeftKey. destruct (coordinate value) as [cx cy].
    simpl in Hx, Hy.
    by rewrite (Number_toString_sameValueZero _ _ Hx),
      (Number_toString_sameValueZero _ _ Hy). }
  rewrite Hkey. split.
  - destruct (wordByTopLeft ocr !! topLeftKey w) as [w' |] eqn:Hget.
    + exists w'. split; [done |]. by apply wordByTopLeft_Some in Hget as [_ ?].
    + exfalso. by eapply (proj1 (wordByTopLeft_None ocr (topLeftKey w)) Hget w).
  - intros Hnodup. by apply wordByTopLeft_unique.
Qed.

Lemma echoed_corner_resolves_witness :
  wordByTopLeft sample_ocr
    !! coordinateKey {| word := "DOE"; coordinate := (Fin 70.0, Fin (40 # 2));
                        groupId := of_Z 1 |}
  = Some (word_of "DOE" [70; 20; 120; 22; 119; 41; 70; 40]%Z).
Proof.
  destruct (echoed_corner_resolves sample_ocr
              (word_of "DOE" [70; 20; 120; 22; 119; 41; 70; 40]%Z)
              {| word := "DOE"; coordinate := (Fin 70.0, Fin (40 # 2));
                 groupId := of_Z 1 |}) as [_ Hunique].
  - right. by left.
  - reflexivity.
  - reflexivity.
  - apply Hunique. vm_compute. repeat constructor; set_solver.
Defined.

(** ** The pipeline from end to end *)

(** X11. Whatever the model answers, every highlight the pipeline returns
    lies in the unit square, provided the words of the first page have
    quadrilateral polygons and the page has positive width and height. *)
Theorem pipeline_highlights_contained (tmpAzureOcr : AzureOcr) (page : Page)
    (response_text : option string) (highlights : list Highlight) :
  analyzeResult_pages tmpAzureOcr !! 0%nat = Some page →
  Forall quad (pageWords page) →
  (0 < pageWidth page)%num → (0 < pageHeight page)%num →
  runDeathCertificatePipeline tmpAzureOcr response_text = Return highlights →
  Forall contained highlights.
Proof.
  intros Hpage Hquad Hw Hh. unfold runDeathCertificatePipeline, getOcrWordsAndPage.
  rewrite Hpage. simpl.
  destruct (extractFieldsFromGemini _ response_text) as [[fields |] | e]; simpl;
    intros [= <-]; [| constructor].
  by apply mapFieldsToHighlights_contained.
Qed.

Lemma pipeline_highlights_contained_witness :
  ∃ highlights,
    runDeathCertificatePipeline sample_result (Some single_mention_response)
    = Return highlights
    ∧ highlights ≠ [] ∧ Forall contained highlights.
Proof.
  eexists. split; [by vm_compute |]. split; [done |].
  eapply (pipeline_highlights_contained sample_result
            {| pageWidth := of_Z 400; pageHeight := of_Z 600; pageWords := sample_ocr |}
            (Some single_mention_response)).
  - reflexivity.
  - repeat constructor; by apply quad_word_of.
  - reflexivity.
  - reflexivity.
  - by vm_compute.
Defined.

(** ** Words inside the page *)

Lemma Qdiv_in_page (a b q : Q) :
  (0 <= a)%Q → (a <= b)%Q → (b <= q)%Q → (0 < q)%Q →
  (0 <= a / q)%Q ∧ (a / q <= 1)%Q ∧ (0 <= (b + - a) / q)%Q.
Proof.
  intros Ha Hab Hbq Hq. repeat split.
  - apply Qle_shift_div_l; lra.
  - apply Qle_shift_div_r; lra.
  - apply Qle_shift_div_l; lra.
Qed.

Lemma num_div_Fin (p q : Q) : (0 < q)%Q → (Fin p / Fin q)%num = Fin (p / q).
Proof.
  intros Hq. cbn [num_div]. destruct (Qeq_bool q 0) eqn:E; [| done].
  apply Qeq_bool_iff in E. lra.
Qed.

(** The upper clamp of a non-negative extent against a difference that is
    not negative: the lower clamp at 0 does nothing. *)
Lemma clamp_extent (room w : Q) :
  (0 <= room)%Q → (0 <= w)%Q →
  (clamp (Fin 0) (Fin room) (Fin w)
   == Math_min [Some (Fin room); Some (Fin w)])%num.
Proof.
  intros Hroom Hw. unfold clamp, Math_max, Math_min. simpl.
  unfold Math_max_step, Math_min_step. simpl.
  Qle_cases; rewrite num_eq_Fin; lra.
Qed.

(** A box whose x and y lie between 0 and 1 and whose width and height are
    not negative keeps its x and y; only the upper clamps of width and
    height can act. *)
Lemma normalizeHighlight_origin (a b w c : Q) (label key : string) :
  (0 <= a <= 1)%Q → (0 <= b <= 1)%Q → (0 <= w)%Q → (0 <= c)%Q →
  origin_kept
    (normalizeHighlight {| id := key; text := label; x := Fin a; y := Fin b;
                           width := Fin w; height := Fin c |})
    {| id := key; text := label; x := Fin a; y := Fin b;
       width := Fin w; height := Fin c |}.
Proof.
  intros Ha Hb Hw Hc. rewrite normalizeHighlight_clamp.
  unfold origin_kept. cbn [id text x y width height].
  change 0%num with (Fin 0). change 1%num with (Fin 1).
  destruct (clamp_in_range 0 1 a) as (ra & -> & Hra); [lra |].
  destruct (clamp_in_range 0 1 b) as (rb & -> & Hrb); [lra |].
  rewrite !num_sub_Fin, !num_eq_Fin.
  do 4 (split; [done |]).
  split; apply clamp_extent; lra.
Qed.

(** X12. Words that lie inside the page keep their place: for a non-empty
    group of quadrilaterals whose corners all lie between 0 and the page
    width (resp. height), the normalizer leaves x = minX / width and
    y = minY / height as they are, and its lower clamps do not act: the
    normalized width is the lesser of (maxX - minX) / width and the
    difference 1 - x, the normalized height the lesser of
    (maxY - minY) / height and 1 - y. *)
Theorem in_page_words_origin_kept (groupWords : list OcrWord) (pageWidth pageHeight : Q)
    (text id : string) :
  groupWords ≠ [] → Forall quad groupWords →
  (0 < pageWidth)%Q → (0 < pageHeight)%Q →
  (∀ v, corner_x groupWords v → (0 <= v)%num ∧ (v <= Fin pageWidth)%num) →
  (∀ v, corner_y groupWords v → (0 <= v)%num ∧ (v <= Fin pageHeight)%num) →
  origin_kept
    (normalizeHighlight
       (wordsToHighlight groupWords (Fin pageWidth) (Fin pageHeight) text id))
    (wordsToHighlight groupWords (Fin pageWidth) (Fin pageHeight) text id).
Proof.
  intros Hne Hq Hw Hh Hxs Hys.
  destruct (minX_least groupWords Hne Hq) as [HminX _].
  destruct (maxX_greatest groupWords Hne Hq) as [HmaxX _].
  destruct (minY_least groupWords Hne Hq) as [HminY _].
  destruct (maxY_greatest groupWords Hne Hq) as [HmaxY _].
  destruct (extent_nonnegative (allXs groupWords)) as [HleX _]; [auto with box .. |].
  destruct (extent_nonnegative (allYs groupWords)) as [HleY _]; [auto with box .. |].
  apply Hxs in HminX as [Hx0 _]. apply Hxs in HmaxX as [_ Hx1].
  apply Hys in HminY as [Hy0 _]. apply Hys in HmaxY as [_ Hy1].
  unfold wordsToHighlight.
  fold (minX groupWords) (maxX groupWords) (minY groupWords) (maxY groupWords)
    in HleX, HleY.
  destruct (minX groupWords) as [| | ax |], (maxX groupWords) as [| | bx |]; try done.
  destruct (minY groupWords) as [| | ay |], (maxY groupWords) as [| | by' |]; try done.
  change 0%num with (Fin 0) in *.
  rewrite num_le_Fin in *.
  rewrite !num_sub_Fin, !num_div_Fin by done.
  destruct (Qdiv_in_page ax bx pageWidth) as (? & ? & ?); [done .. |].
  destruct (Qdiv_in_page ay by' pageHeight) as (? & ? & ?); [done .. |].
  by apply normalizeHighlight_origin.
Qed.

Lemma in_page_words_origin_kept_witness :
  let h := wordsToHighlight scattered_words (Fin 400) (Fin 600) "Name: JOHN DOE"
             "h-name-g-1" in
  origin_kept (normalizeHighlight h) h.
Proof.
  intros h.
  apply (in_page_words_origin_kept scattered_words 400 600).
  - done.
  - repeat constructor; by apply quad_word_of.
  - reflexivity.
  - reflexivity.
  - intros v (word & py & Hin & i & Hi & Hx & _).
    apply list_elem_of_In in Hin. simpl in Hin.
    destruct Hin as [<- | [<- | []]];
      do 4 (destruct i as [| i]; [injection Hx as <-; by vm_compute |]); lia.
  - intros v (word & px & Hin & i & Hi & _ & Hy).
    apply list_elem_of_In in Hin. simpl in Hin.
    destruct Hin as [<- | [<- | []]];
      do 4 (destruct i as [| i]; [injection Hy as <-; by vm_compute |]); lia.
Defined.

(** ** The grouped mapping and the one before it *)

Lemma omap_filter_Boolean_nullable {A} (l : list (option A)) :
  omap (λ v, v) (List.filter Legacy.Boolean_nullable l) = omap (λ v, v) l.
Proof.
  induction l as [| [a |] l IH]; [done | | exact IH].
  change (a :: omap (λ v, v) (List.filter Legacy.Boolean_nullable l)
          = a :: omap (λ v, v) l).
  by rewrite IH.
Qed.

Lemma Legacy_mapFieldListToHighlights_snoc (fieldLabel fieldKey : string)
    (values : list Legacy.FieldMatch) (value : Legacy.FieldMatch)
    (ocr : list OcrWord) (pageWidth pageHeight : number) :
  Legacy.mapFieldListToHighlights fieldLabel fieldKey (values ++ [value]) ocr
    pageWidth pageHeight
  = (Legacy.mapFieldListToHighlights fieldLabel fieldKey values ocr
       pageWidth pageHeight
     ++ match Legacy.mentionHighlight fieldLabel fieldKey (wordByTopLeft ocr)
                pageWidth pageHeight (length values) value with
        | Some h => [h]
        | None => []
        end)%list.
Proof.
  unfold Legacy.mapFieldListToHighlights.
  rewrite !omap_filter_Boolean_nullable, imap_app, omap_app. f_equal.
  simpl. rewrite Nat.add_0_r. by destruct (Legacy.mentionHighlight _ _ _ _ _ _ _).
Qed.

Lemma distinctKeys_snoc (ks : list number) (g : number) :
  distinctKeys (ks ++ [g]) = true →
  distinctKeys ks = true ∧ existsb (λ k, sameValueZero k g) ks = false.
Proof.
  induction ks as [| k ks IH]; simpl; [done |].
  rewrite existsb_app. simpl. rewrite orb_false_r.
  intros [[Hk Hg]%negb_true_iff%orb_false_iff Hrest]%andb_true_iff.
  destruct (IH Hrest) as [Hd He]. by rewrite Hk, Hd, Hg, He.
Qed.

Lemma existsb_resolved (ocr : list OcrWord) (f : number → bool)
    (values : list FieldMatch) :
  existsb f (groupId <$> values) = false →
  existsb f (groupId <$> List.filter (resolves ocr) values) = false.
Proof.
  induction values as [| value values IH]; simpl; [done |].
  intros [Hv Hrest]%orb_false_iff.
  destruct (resolves ocr value); simpl; rewrite ?Hv; by apply IH.
Qed.

(** Setting a key that no entry has appends the entry. *)
Lemma Map_set_fresh {V} (m : list (number * V)) (key : number) (value : V) :
  existsb (λ k, sameValueZero k key) (keys m) = false →
  Map_set m key value = (m ++ [(key, value)])%list.
Proof.
  unfold keys. induction m as [| [k v] m IH]; simpl; [done |].
  intros [-> Hm]%orb_false_iff. by rewrite IH.
Qed.

Lemma Map_get_fresh {V} (m : list (number * V)) (key : number) :
  existsb (λ k, sameValueZero k key) (keys m) = false → Map_get m key = None.
Proof.
  intros H. destruct (Map_get m key) eqn:E; [| done].
  assert (is_Some (Map_get m key)) as Hs by (by rewrite E).
  apply Map_get_keys in Hs. congruence.
Qed.

(** X13. When the mentions of a category all carry different group ids, the
    grouped mapping yields what the mapping before it yields for the same
    mentions without their group ids: the same boxes with the same texts,
    one per resolving mention, in the order of the mentions; only the ids
    of the highlights differ. *)
Theorem grouping_extends_ungrouped (fieldLabel fieldKey : string)
    (values : list FieldMatch) (ocr : list OcrWord) (pageWidth pageHeight : number) :
  distinctKeys (groupId <$> values) = true →
  labelledBox <$> mapFieldListToHighlights fieldLabel fieldKey values ocr
                    pageWidth pageHeight
  = labelledBox <$> Legacy.mapFieldListToHighlights fieldLabel fieldKey
                      (ungrouped <$> values) ocr pageWidth pageHeight.
Proof.
  unfold mapFieldListToHighlights. rewrite filter_Boolean_object.
  induction values as [| value values IH] using rev_ind; intros Hdistinct; [done |].
  rewrite fmap_app in Hdistinct. apply distinctKeys_snoc in Hdistinct as [Hd Hfresh].
  rewrite fmap_app. simpl (ungrouped <$> [value]).
  rewrite Legacy_mapFieldListToHighlights_snoc, collectGroups_snoc, fmap_app.
  rewrite <- (IH Hd), length_fmap.
  unfold addMention, Legacy.mentionHighlight.
  change (Legacy.coordinateKey (ungrouped value)) with (coordinateKey value).
  destruct (wordByTopLeft ocr !! coordinateKey value) as [w |]; simpl;
    [| by rewrite app_nil_r].
  assert (existsb (λ k, sameValueZero k (groupId value))
            (keys (collectGroups values ocr)) = false) as Hkeys.
  { rewrite keys_collectGroups, existsb_firstAppearance.
    by apply existsb_resolved. }
  rewrite (Map_get_fresh _ _ Hkeys), (Map_set_fresh _ _ _ Hkeys).
  by rewrite !fmap_app.
Qed.

Lemma grouping_extends_ungrouped_witness :
  let values := [mention "JOHN" 10 20 1; mention "J." 11 20 2; mention "DOE" 70 20 3] in
  labelledBox <$> mapFieldListToHighlights "Name" "name" values sample_ocr
                    (of_Z 400) (of_Z 600)
  = labelledBox <$> Legacy.mapFieldListToHighlights "Name" "name"
                      (ungrouped <$> values) sample_ocr (of_Z 400) (of_Z 600).
Proof.
  intros values.
  apply (grouping_extends_ungrouped "Name" "name" values sample_ocr).
  reflexivity.
Defined.

(** ** Identifiers of the highlights *)

Lemma Qred_inject_Z (z : Z) : Qred (inject_Z z) = inject_Z z.
Proof.
  unfold Qred, inject_Z.
  pose proof (Z.ggcd_gcd z 1) as Hg. pose proof (Z.ggcd_correct_divisors z 1) as Hd.
  destruct (Z.ggcd z 1) as [g [aa bb]]. simpl in *.
  rewrite Z.gcd_1_r in Hg. subst g. destruct Hd as [Ha Hb].
  f_equal; [lia |]. destruct bb; lia.
Qed.

(** An integer prints its decimal digits. *)
Lemma Number_toString_of_Z (z : Z) : Number_toString (of_Z z) = pretty z.
Proof. unfold Number_toString, of_Z. by rewrite Qred_inject_Z. Qed.

Lemma Number_toString_of_Z_inj (a b : Z) :
  Number_toString (of_Z a) = Number_toString (of_Z b) → a = b.
Proof. rewrite !Number_toString_of_Z. apply pretty_Z_inj. Qed.

Lemma highlightId_inj (fieldKey : string) (a b : Z) :
  highlightId fieldKey (of_Z a) = highlightId fieldKey (of_Z b) → a = b.
Proof.
  unfold highlightId. intros H. do 3 apply String.app_inj in H.
  by apply Number_toString_of_Z_inj.
Qed.

Lemma Forall_firstAppearance (P : number → Prop) (ids : list number) :
  Forall P ids → Forall P (firstAppearance ids).
Proof.
  induction 1 as [| g ids Hg _ IH]; simpl; [constructor |].
  constructor; [done |]. apply Forall_forall. intros k Hk%list_elem_of_In.
  apply filter_In in Hk as [Hk _]. rewrite Forall_forall in IH.
  by apply IH, list_elem_of_In.
Qed.

Lemma NoDup_highlightId (fieldKey : string) (ks : list number) :
  distinctKeys ks = true → Forall integerId ks →
  NoDup (highlightId fieldKey <$> ks).
Proof.
  induction ks as [| k ks IH]; simpl; [constructor |].
  intros [Hk Hks]%andb_true_iff [[a ->] Hint]%Forall_cons.
  apply NoDup_cons. split; [| by apply IH].
  intros (k' & Heq & Hin)%list_elem_of_fmap.
  rewrite Forall_forall in Hint. destruct (Hint _ Hin) as [b ->].
  apply highlightId_inj in Heq as ->.
  apply negb_true_iff in Hk.
  assert (existsb (λ k', sameValueZero (of_Z b) k') ks = true); [| congruence].
  apply existsb_exists. exists (of_Z b).
  split; [by apply list_elem_of_In | apply sameValueZero_refl].
Qed.

Lemma categoryIds_NoDup (fieldKey : string) (values : list FieldMatch)
    (ocr : list OcrWord) :
  Forall integerGroupId values → NoDup (categoryIds fieldKey values ocr).
Proof.
  intros Hint. unfold categoryIds.
  apply NoDup_highlightId; [apply distinctKeys_firstAppearance |].
  apply Forall_firstAppearance, Forall_fmap, Forall_forall.
  intros value Hin%list_elem_of_In%filter_In. destruct Hin as [Hin _].
  rewrite Forall_forall in Hint. by apply Hint, list_elem_of_In.
Qed.

(** The ids of two of the four categories never meet. *)
Lemma categoryIds_disjoint (key1 key2 : string) (values1 values2 : list FieldMatch)
    (ocr : list OcrWord) (s : string) :
  key1 ∈ categoryKeys → key2 ∈ categoryKeys → key1 ≠ key2 →
  s ∈ categoryIds key1 values1 ocr → s ∈ categoryIds key2 values2 ocr → False.
Proof.
  unfold categoryIds, categoryKeys.
  intros H1 H2 Hne (g1 & -> & _)%list_elem_of_fmap (g2 & Heq & _)%list_elem_of_fmap.
  repeat (apply elem_of_cons in H1 as [-> | H1]);
    try (by apply elem_of_nil in H1);
    repeat (apply elem_of_cons in H2 as [-> | H2]);
    try (by apply elem_of_nil in H2); try done;
    cbv [highlightId String.append] in Heq; discriminate.
Qed.

(** X14. When the group ids of the response are integers, the ids of the
    highlights of the final list are pairwise different (the page uses
    them as keys of the overlay elements): within a category there is one
    id per group, and ids of different categories differ in the category
    key. *)
Theorem highlight_ids_unique (fields : ParsedFieldValues) (ocr : list OcrWord)
    (pageWidth pageHeight : number) :
  Forall integerGroupId (name fields) →
  Forall integerGroupId (dateOfBirth fields) →
  Forall integerGroupId (address fields) →
  Forall integerGroupId (causeOfDeath fields) →
  NoDup (id <$> mapFieldsToHighlights fields ocr pageWidth pageHeight).
Proof.
  intros Hn Hd Ha Hc. unfold mapFieldsToHighlights.
  rewrite ids_normalizeHighlights, !fmap_app, !ids_mapFieldListToHighlights.
  fold (categoryIds "name" (name fields) ocr)
    (categoryIds "dateOfBirth" (dateOfBirth fields) ocr)
    (categoryIds "address" (address fields) ocr)
    (categoryIds "causeOfDeath" (causeOfDeath fields) ocr).
  assert (∀ k, k ∈ categoryKeys ↔ k = "name" ∨ k = "dateOfBirth" ∨ k = "address"
                                   ∨ k = "causeOfDeath") as Hkeys.
  { intros k. unfold categoryKeys. set_solver. }
  apply NoDup_app. split; [by apply categoryIds_NoDup |]. split.
  { intros s Hs Hin. rewrite !elem_of_app in Hin.
    destruct Hin as [Hin | [Hin | Hin]];
      (eapply categoryIds_disjoint; [| | | exact Hs | exact Hin];
       [apply Hkeys; tauto | apply Hkeys; tauto | done]). }
  apply NoDup_app. split; [by apply categoryIds_NoDup |]. split.
  { intros s Hs Hin. rewrite !elem_of_app in Hin.
    destruct Hin as [Hin | Hin];
      (eapply categoryIds_disjoint; [| | | exact Hs | exact Hin];
       [apply Hkeys; tauto | apply Hkeys; tauto | done]). }
  apply NoDup_app. split; [by apply categoryIds_NoDup |]. split.
  { intros s Hs Hin.
    eapply categoryIds_disjoint; [| | | exact Hs | exact Hin];
      [apply Hkeys; tauto | apply Hkeys; tauto | done]. }
  by apply categoryIds_NoDup.
Qed.

Lemma highlight_ids_unique_witness :
  NoDup (id <$> mapFieldsToHighlights
                  {| name := late_group_mentions;
                     dateOfBirth := [mention "1970" 300 500 1];
                     address := [];
                     causeOfDeath := [mention "DOE" 70 20 1; mention "JOHN" 10 20 2] |}
                  sample_ocr (of_Z 400) (of_Z 600)).
Proof.
  apply highlight_ids_unique; simpl; repeat constructor; by eexists.
Defined.

(** ** Characters of the printed numbers *)

Lemma count_char_app (c : ascii) (s1 s2 : string) :
  count_char c (s1 +:+ s2) = (count_char c s1 + count_char c s2)%nat.
Proof.
  induction s1 as [| a s1 IH]; [done |].
  change (count_char c (String a (s1 +:+ s2))
          = (count_char c (String a s1) + count_char c s2)%nat).
  simpl. rewrite IH. lia.
Qed.

(** A character that is no digit does not occur among the digits printed. *)
Lemma count_char_pretty_N_go (c : ascii) (x : N) (s : string) :
  (∀ d, pretty_N_char d ≠ c) →
  count_char c (pretty_N_go x s) = count_char c s.
Proof.
  intros Hc. revert s. induction (N.lt_wf_0 x) as [x _ IH]; intros s.
  destruct (decide (x = 0)%N) as [-> | Hx]; [by rewrite pretty_N_go_0 |].
  rewrite pretty_N_go_step by lia.
  rewrite IH by (apply N.div_lt; lia). simpl.
  by destruct (decide (pretty_N_char (x `mod` 10) = c)) as [?%Hc |].
Qed.

Lemma count_char_pretty_Z (c : ascii) (z : Z) :
  (∀ d, pretty_N_char d ≠ c) → c ≠ "-"%char →
  count_char c (pretty z) = 0%nat.
Proof.
  intros Hc Hminus.
  assert (∀ p : positive, count_char c (pretty p) = 0%nat) as Hpos.
  { intros p. unfold pretty, pretty_positive, pretty, pretty_N.
    destruct (decide (N.pos p = 0%N)); [done |].
    by rewrite count_char_pretty_N_go. }
  destruct z as [| p | p]; unfold pretty, pretty_Z.
  - simpl. destruct (decide ("0"%char = c)) as [<- |]; [| done].
    by destruct (Hc 0%N).
  - apply Hpos.
  - rewrite count_char_app, Hpos. simpl.
    by destruct (decide ("-"%char = c)) as [<- |].
Qed.

Lemma comma_no_digit (d : N) : pretty_N_char d ≠ ","%char.
Proof. unfold pretty_N_char. by repeat case_match. Qed.

(** Two texts with a separator are equal only part by part, when the
    separator does not occur in the first parts. *)
Lemma app_sep_inj (sep : ascii) (s1 s2 t1 t2 : string) :
  count_char sep s1 = 0%nat → count_char sep s2 = 0%nat →
  s1 +:+ String sep t1 = s2 +:+ String sep t2 → s1 = s2 ∧ t1 = t2.
Proof.
  revert s2. induction s1 as [| a s1 IH]; intros [| b s2]; simpl.
  - by intros _ _ [= ->].
  - intros _ H [= <- _]. by destruct (decide (sep = sep)).
  - intros H _ [= -> _]. by destruct (decide (sep = sep)).
  - intros H1 H2 [= -> Heq].
    destruct (decide (b = sep)); [done |].
    destruct (IH s2 H1 H2 Heq) as [-> ->]. done.
Qed.

(** X15. Resolution is exact on integer pixel coordinates: when the
    top-left corners of the OCR words and the coordinate of a mention are
    integers, the mention resolves only to a word whose top-left corner is
    its coordinate, number for number; there is no tolerance and no nearest
    match. *)
Theorem resolution_exact (ocr : list OcrWord) (value : FieldMatch) (w : OcrWord)
    (a b : Z) :
  Forall integerCorner ocr →
  coordinate value = (of_Z a, of_Z b) →
  wordByTopLeft ocr !! coordinateKey value = Some w →
  w ∈ ocr
  ∧ default 0%num (polygon w !! 0%nat) = of_Z a
  ∧ default 0%num (polygon w !! 1%nat) = of_Z b.
Proof.
  intros Hint Hc [Hw Hkey]%wordByTopLeft_Some. split; [done |].
  rewrite Forall_forall in Hint. destruct (Hint _ Hw) as (c & d & Hx & Hy).
  unfold topLeftKey, coordinateKey in Hkey. rewrite Hx, Hy, Hc in Hkey.
  rewrite !Number_toString_of_Z in Hkey.
  apply (app_sep_inj ","%char) in Hkey as [Hcx Hcy];
    [| by apply count_char_pretty_Z; [apply comma_no_digit |] ..].
  apply pretty_Z_inj in Hcx, Hcy. by subst.
Qed.

Lemma resolution_exact_witness :
  let w := word_of "DOE" [70; 20; 120; 22; 119; 41; 70; 40]%Z in
  w ∈ sample_ocr
  ∧ default 0%num (polygon w !! 0%nat) = of_Z 70
  ∧ default 0%num (polygon w !! 1%nat) = of_Z 20.
Proof.
  intros w.
  apply (resolution_exact sample_ocr (mention "DOE" 70 20 1) w 70 20).
  - repeat constructor; by eexists _, _.
  - reflexivity.
  - by vm_compute.
Defined.

Lemma line_feed_no_digit (d : N) : pretty_N_char d ≠ "010"%char.
Proof. unfold pretty_N_char. by repeat case_match. Qed.

Lemma line_feed_pretty_Z (z : Z) : count_char "010"%char (pretty z) = 0%nat.
Proof. by apply count_char_pretty_Z; [apply line_feed_no_digit |]. Qed.

Lemma line_feed_zeros (k : nat) :
  count_char "010"%char (string_of_list_ascii (replicate k "0"%char)) = 0%nat.
Proof. induction k as [| k IH]; [done |]. simpl. by rewrite IH. Qed.

(** A printed number holds no line feed. *)
Lemma line_feed_Number_toString (n : number) :
  count_char "010"%char (Number_toString n) = 0%nat.
Proof.
  destruct n as [| | q |]; try reflexivity.
  unfold Number_toString, Q_toString.
  destruct (Qden (Qred q)); try apply line_feed_pretty_Z;
    (destruct (decimal_places _);
     [ unfold pad_zeros;
       rewrite !count_char_app, !line_feed_pretty_Z, line_feed_zeros;
       by destruct (decide _)
     | by rewrite !count_char_app, !line_feed_pretty_Z ]).
Qed.

Lemma line_feed_ocrLine (word : OcrWord) :
  count_char "010"%char (ocrLine word) = count_char "010"%char (content word).
Proof.
  unfold ocrLine. rewrite !count_char_app, !line_feed_Number_toString.
  simpl. lia.
Qed.

(** X16. The serializer adds exactly one line feed between consecutive
    words and none elsewhere: the line feeds of the text are one less than
    the number of words (none for no word), plus those the contents of the
    words hold themselves. So the text has one line per word exactly when
    no content holds a line feed; the contents are not escaped. *)
Theorem toTopLeftOcrLines_line_feeds (words : list OcrWord) :
  count_char "010"%char (toTopLeftOcrLines words)
  = (length words - 1 + contentLineFeeds words)%nat.
Proof.
  unfold toTopLeftOcrLines.
  induction words as [| word rest IH]; [done |].
  destruct rest as [| word' rest].
  - simpl. rewrite line_feed_ocrLine. lia.
  - rewrite !fmap_cons, join_cons_cons, <- fmap_cons.
    rewrite !count_char_app, IH, line_feed_ocrLine.
    change (contentLineFeeds (word :: word' :: rest))
      with (count_char "010"%char (content word)
            + contentLineFeeds (word' :: rest))%nat.
    change (count_char "010"%char newline) with 1%nat.
    simpl length. lia.
Qed.

(** ** The dashboard *)

Lemma ids_runProcessing_resume (processed : string) (result : list Highlight)
    (s : Dashboard.State) :
  Dashboard.id <$> Dashboard.uploads (Dashboard.runProcessing_resume processed result s)
  = Dashboard.id <$> Dashboard.uploads s.
Proof.
  simpl. rewrite <- list_fmap_compose. apply list_fmap_ext.
  intros _ upload _. simpl. by case_bool_decide.
Qed.

Lemma urls_runProcessing_resume (processed : string) (result : list Highlight)
    (s : Dashboard.State) :
  Dashboard.imageUrl <$> Dashboard.uploads (Dashboard.runProcessing_resume processed result s)
  = Dashboard.imageUrl <$> Dashboard.uploads s.
Proof.
  simpl. rewrite <- list_fmap_compose. apply list_fmap_ext.
  intros _ upload _. simpl. by case_bool_decide.
Qed.

Lemma find_id (selected : string) (uploads : list Dashboard.UploadedCertificate)
    (upload : Dashboard.UploadedCertificate) :
  List.find (λ upload, bool_decide (Dashboard.id upload = selected)) uploads
  = Some upload →
  Dashboard.id upload = selected.
Proof.
  intros [_ H]%find_some. by apply bool_decide_eq_true in H.
Qed.

Lemma dashboard_invariant_step (s : Dashboard.State) (e : Dashboard.Event) :
  dashboard_invariant s → dashboard_invariant (Dashboard.step s e).
Proof.
  intros Hs. pose proof Hs as (Hnone & Hsel & Hproc & Hurls).
  destruct e as [files clock | upload | |]; simpl.
  - destruct (Dashboard.isProcessing s); [done |].
    unfold Dashboard.handleFiles.
    destruct (decide (length files = 0%nat)) as [| Hfiles]; [done |].
    destruct files as [| file files]; [done |].
    repeat split; simpl.
    + intros H. destruct (Dashboard.selectedId s); done.
    + intros H. by apply app_eq_nil in H as [_ H].
    + intros selected H. rewrite fmap_app, elem_of_app.
      destruct (Dashboard.selectedId s) as [prev |] eqn:Hprev.
      * injection H as <-. left. by apply Hsel.
      * injection H as <-. right. simpl. left.
    + intros processed H. rewrite (Hproc _ H) in *. done.
    + by rewrite fmap_app, Hurls.
  - destruct (Dashboard.isProcessing s) eqn:Hp; [done |].
    case_bool_decide as Hin; [| done].
    repeat split; simpl; try done.
    + intros H. rewrite H in Hin. by apply elem_of_nil in Hin.
    + by intros selected [= <-].
    + intros processed H. unfold Dashboard.isProcessing in Hp.
      by rewrite H in Hp.
  - unfold Dashboard.handleRunProcess.
    destruct (Dashboard.selectedUpload s) as [upload |] eqn:Hupload; [| done].
    destruct (Dashboard.isProcessing s); [done |].
    repeat split; simpl; try tauto; try done.
    intros processed [= <-]. unfold Dashboard.selectedUpload in Hupload.
    destruct (Dashboard.selectedId s) as [selected |]; [| done].
    by rewrite (find_id _ _ _ Hupload).
  - destruct (Dashboard.processingUploadId s) as [processed |] eqn:Hp; [| done].
    unfold dashboard_invariant.
    rewrite ids_runProcessing_resume, urls_runProcessing_resume.
    repeat split; try done.
    + simpl. intros H. apply Hnone in H. by rewrite H.
    + simpl. intros H. apply fmap_nil_inv in H. by apply Hnone.
Qed.

Lemma dashboard_invariant_steps (events : list Dashboard.Event) (s : Dashboard.State) :
  dashboard_invariant s → dashboard_invariant (foldl Dashboard.step s events).
Proof.
  revert s. induction events as [| e events IH]; intros s Hs; [done |].
  simpl. by apply IH, dashboard_invariant_step.
Qed.

(** X17. Whatever happens to the page, in the state reached: an upload is
    selected as soon as there is one; the selected identifier is that of an
    upload of the list, so the selected upload exists; the upload being
    processed is the selected one; and the object URLs shown are the ones
    recorded for revocation, in the same order. *)
Theorem dashboard_selection (events : list Dashboard.Event) :
  let s := Dashboard.run events in
  (Dashboard.selectedId s = None ↔ Dashboard.uploads s = [])
  ∧ (∀ selected, Dashboard.selectedId s = Some selected →
       ∃ upload, Dashboard.selectedUpload s = Some upload
                 ∧ Dashboard.id upload = selected
                 ∧ upload ∈ Dashboard.uploads s)
  ∧ (∀ processed, Dashboard.processingUploadId s = Some processed →
       Dashboard.selectedId s = Some processed)
  ∧ Dashboard.imageUrl <$> Dashboard.uploads s = Dashboard.createdObjectUrls s.
Proof.
  intros s.
  destruct (dashboard_invariant_steps events Dashboard.initial)
    as (Hnone & Hsel & Hproc & Hurls); [by repeat split |].
  fold (Dashboard.run events) in Hnone, Hsel, Hproc, Hurls. fold s in Hnone, Hsel, Hproc, Hurls.
  repeat split; try done; try tauto.
  intros selected H. unfold Dashboard.selectedUpload. rewrite H.
  apply Hsel, list_elem_of_fmap in H as (upload & Hid & Hin).
  destruct (List.find _ (Dashboard.uploads s)) as [found |] eqn:Hfind.
  - exists found. split; [done |]. split; [by apply find_id in Hfind |].
    apply find_some in Hfind as [Hfound _]. by apply list_elem_of_In.
  - apply list_elem_of_In in Hin.
    apply (find_none _ _ Hfind upload) in Hin.
    by rewrite bool_decide_eq_false in Hin.
Qed.

Lemma minus_no_digit (d : N) : pretty_N_char d ≠ "-"%char.
Proof. unfold pretty_N_char. by repeat case_match. Qed.

Lemma count_char_pretty_nonnegative (c : ascii) (z : Z) :
  (∀ d, pretty_N_char d ≠ c) → (0 ≤ z)%Z → count_char c (pretty z) = 0%nat.
Proof.
  intros Hc Hz. destruct z as [| p | p]; [| | lia].
  - simpl. destruct (decide ("0"%char = c)) as [<- |]; [| done].
    by destruct (Hc 0%N).
  - unfold pretty, pretty_Z, pretty, pretty_positive, pretty, pretty_N.
    destruct (decide (N.pos p = 0%N)); [done |].
    by rewrite count_char_pretty_N_go.
Qed.

(** The identifier of an upload determines the reading and the index. *)
Lemma uploadId_inj (t t' : Z) (index index' : nat) :
  (0 ≤ t)%Z → (0 ≤ t')%Z →
  Dashboard.uploadId t index = Dashboard.uploadId t' index' →
  t = t' ∧ index = index'.
Proof.
  intros Ht Ht'. unfold Dashboard.uploadId. rewrite !Number_toString_of_Z.
  intros [H1 H2]%(app_sep_inj "-"%char);
    [| by apply count_char_pretty_nonnegative; [apply minus_no_digit |] ..].
  apply pretty_Z_inj in H1, H2. split; [done | lia].
Qed.

Lemma foldr_max_bound (t0 : Z) (ts : list Z) :
  (t0 ≤ foldr Z.max t0 ts)%Z ∧ Forall (λ t, t ≤ foldr Z.max t0 ts)%Z ts.
Proof.
  induction ts as [| t ts [IH1 IH2]]; simpl; [by split |].
  split; [lia |]. constructor; [lia |].
  eapply Forall_impl; [exact IH2 |]. simpl. lia.
Qed.

Lemma stampedBefore_mono (t0 t1 : Z) (s : Dashboard.State) :
  (t0 ≤ t1)%Z → stampedBefore t0 s → stampedBefore t1 s.
Proof.
  intros Hle [Hnodup Hall]. split; [done |].
  eapply Forall_impl; [exact Hall |].
  intros upload (t & index & Hid & Ht). exists t, index. split; [done | lia].
Qed.

Lemma ids_newUploads (files : list Dashboard.File) (clock : nat → Z) :
  Dashboard.id <$>
    imap (λ index file,
            {| Dashboard.id := Dashboard.uploadId (clock index) index;
               Dashboard.name := Dashboard.fileName file;
               Dashboard.imageUrl := Dashboard.objectUrl file;
               Dashboard.highlights := [] |}) files
  = (λ index, Dashboard.uploadId (clock index) index) <$> seq 0 (length files).
Proof. by rewrite fmap_imap, <- imap_seq_0. Qed.

Lemma stampedBefore_handleFiles (t0 : Z) (files : list Dashboard.File)
    (clock : nat → Z) (s : Dashboard.State) :
  (0 ≤ t0)%Z → stampedBefore t0 s →
  forallb (λ t, t0 <=? t)%Z (Dashboard.readings files clock) = true →
  stampedBefore (foldr Z.max t0 (Dashboard.readings files clock) + 1)
    (Dashboard.handleFiles files clock s).
Proof.
  intros Ht0 Hs Hclock.
  destruct (foldr_max_bound t0 (Dashboard.readings files clock)) as [Hle Hmax].
  unfold Dashboard.handleFiles.
  destruct (decide (length files = 0%nat)); [by apply (stampedBefore_mono t0); [lia |] |].
  destruct Hs as [Hnodup Hall].
  assert (∀ index, (index < length files)%nat →
            (t0 ≤ clock index ≤ foldr Z.max t0 (Dashboard.readings files clock))%Z)
    as Hreading.
  { intros index Hindex.
    assert (clock index ∈ Dashboard.readings files clock) as Hin.
    { apply list_elem_of_fmap. exists index. split; [done |].
      apply elem_of_seq. lia. }
    split.
    - rewrite forallb_forall in Hclock.
      apply list_elem_of_In, Hclock in Hin. lia.
    - rewrite Forall_forall in Hmax. by apply Hmax. }
  split; simpl.
  - rewrite fmap_app, ids_newUploads. apply NoDup_app. split; [done |]. split.
    + intros x Hold (index & -> & Hindex%elem_of_seq)%list_elem_of_fmap.
      apply list_elem_of_fmap in Hold as (upload & Hid & Hupload).
      rewrite Forall_forall in Hall.
      destruct (Hall _ Hupload) as (t & index' & Hid' & Ht).
      rewrite Hid' in Hid.
      apply uploadId_inj in Hid as [Heq _]; [| specialize (Hreading index); lia | lia].
      specialize (Hreading index). lia.
    + apply NoDup_fmap_2_strong; [| apply NoDup_seq].
      intros index index' Hindex%elem_of_seq Hindex'%elem_of_seq Heq.
      apply uploadId_inj in Heq as [_ Heq]; [done | |].
      * specialize (Hreading index). lia.
      * specialize (Hreading index'). lia.
  - apply Forall_app. split.
    + eapply Forall_impl; [exact Hall |].
      intros upload (t & index & Hid & Ht). exists t, index. split; [done | lia].
    + apply Forall_forall. intros upload Hupload.
      apply elem_of_lookup_imap in Hupload as (index & file & -> & Hfile).
      apply lookup_lt_Some in Hfile. specialize (Hreading index Hfile).
      exists (clock index), index. simpl. split; [done | lia].
Qed.

Lemma stampedBefore_step (t0 : Z) (s : Dashboard.State) (e : Dashboard.Event) :
  (∀ files clock, e ≠ Dashboard.FilesChosen files clock) →
  stampedBefore t0 s → stampedBefore t0 (Dashboard.step s e).
Proof.
  intros He Hs. destruct e as [files clock | upload | |]; simpl.
  - by destruct (He files clock).
  - destruct (Dashboard.isProcessing s); [done |]. by case_bool_decide.
  - unfold Dashboard.handleRunProcess.
    destruct (Dashboard.selectedUpload s); [| done].
    by destruct (Dashboard.isProcessing s).
  - destruct (Dashboard.processingUploadId s) as [processed |]; [| done].
    destruct Hs as [Hnodup Hall]. split.
    + by rewrite ids_runProcessing_resume.
    + simpl. apply Forall_fmap. eapply Forall_impl; [exact Hall |].
      intros upload H. simpl. by case_bool_decide.
Qed.

Lemma stampedBefore_steps (events : list Dashboard.Event) (t0 : Z)
    (s : Dashboard.State) :
  (0 ≤ t0)%Z → stampedBefore t0 s →
  Dashboard.clockAdvances t0 events = true →
  NoDup (Dashboard.id <$> Dashboard.uploads (foldl Dashboard.step s events)).
Proof.
  revert t0 s. induction events as [| e events IH]; intros t0 s Ht0 Hs Hclock.
  { by destruct Hs. }
  destruct e as [files clock | upload | |];
    try (simpl in Hclock; apply (IH t0); [done | | done];
         by apply stampedBefore_step).
  simpl in Hclock. apply andb_true_iff in Hclock as [Hnow Hrest].
  destruct (foldr_max_bound t0 (Dashboard.readings files clock)) as [Hle _].
  apply (IH (foldr Z.max t0 (Dashboard.readings files clock) + 1)%Z);
    [lia | | done].
  simpl. destruct (Dashboard.isProcessing s).
  - by apply (stampedBefore_mono t0); [lia |].
  - by apply stampedBefore_handleFiles.
Qed.

(** X18. The identifiers of the uploads differ from one another, whatever
    happens to the page, when the clock does not read less than [0] and
    reads more for each choice of files than for the choices before it; the
    readings within one choice may be equal. *)
Theorem upload_ids_unique (events : list Dashboard.Event) :
  Dashboard.clockAdvances 0 events = true →
  NoDup (Dashboard.id <$> Dashboard.uploads (Dashboard.run events)).
Proof.
  intros Hclock. apply (stampedBefore_steps events 0%Z); [done | | done].
  split; [apply NoDup_nil_2 | apply Forall_nil_2].
Qed.

Lemma upload_ids_unique_witness :
  let scan := {| Dashboard.fileName := "scan.png"; Dashboard.objectUrl := "blob:1" |} in
  let copy := {| Dashboard.fileName := "copy.png"; Dashboard.objectUrl := "blob:2" |} in
  NoDup (Dashboard.id <$> Dashboard.uploads (Dashboard.run
    [Dashboard.FilesChosen [scan; copy] (λ _, 1700000000000%Z);
     Dashboard.RunClicked; Dashboard.Resolved;
     Dashboard.FilesChosen [scan] (λ _, 1700000000001%Z)])).
Proof.
  intros scan copy. apply upload_ids_unique. reflexivity.
Defined.

Lemma run_app (events rest : list Dashboard.Event) :
  Dashboard.run (events ++ rest)
  = foldl Dashboard.step (Dashboard.run events) rest.
Proof. apply foldl_app. Qed.

Lemma run_then_resolve (s : Dashboard.State) (upload : Dashboard.UploadedCertificate) :
  Dashboard.selectedUpload s = Some upload →
  Dashboard.processingUploadId s = None →
  foldl Dashboard.step s [Dashboard.RunClicked; Dashboard.Resolved]
  = Dashboard.runProcessing_resume (Dashboard.id upload)
      Dashboard.fakeProcessCertificate
      (Dashboard.runProcessing_start (Dashboard.id upload) s).
Proof.
  intros Hupload Hidle. cbn [foldl Dashboard.step].
  unfold Dashboard.handleRunProcess, Dashboard.isProcessing.
  by rewrite Hupload, Hidle.
Qed.

(** Updating the elements of a key, where keys differ, is updating one
    element in place. *)
Lemma fmap_update_insert (f : Dashboard.UploadedCertificate → Dashboard.UploadedCertificate)
    (uploads : list Dashboard.UploadedCertificate) (k : nat)
    (upload : Dashboard.UploadedCertificate) :
  NoDup (Dashboard.id <$> uploads) → uploads !! k = Some upload →
  (λ other, if bool_decide (Dashboard.id other = Dashboard.id upload)
            then f other else other) <$> uploads
  = <[k := f upload]> uploads.
Proof.
  intros Hnodup Hk. apply list_eq. intros j. rewrite list_lookup_fmap.
  destruct (decide (k = j)) as [<- | Hne].
  - rewrite list_lookup_insert_eq by (by eapply lookup_lt_Some).
    rewrite Hk. simpl. by rewrite bool_decide_eq_true_2.
  - rewrite list_lookup_insert_ne by done.
    destruct (uploads !! j) as [other |] eqn:Hj; [| done]. simpl.
    case_bool_decide as Heq; [| done]. destruct Hne.
    apply (NoDup_lookup (Dashboard.id <$> uploads) k j (Dashboard.id upload));
      [done | |]; rewrite list_lookup_fmap.
    + by rewrite Hk.
    + rewrite Hj. simpl. by rewrite Heq.
Qed.

Lemma normalizeHighlights_FAKE_HIGHLIGHTS :
  normalizeHighlights Dashboard.fakeProcessCertificate = Dashboard.FAKE_HIGHLIGHTS.
Proof. reflexivity. Qed.

(** X19. A run of the process on an idle page with a selected upload, under
    the advancing clock, stores the highlights of the stub in the selected
    upload as they are, none of them being clamped, and changes nothing
    else: the other uploads, the order, the selection; and the page is idle
    again. *)
Theorem run_updates_selected (events : list Dashboard.Event)
    (upload : Dashboard.UploadedCertificate) :
  Dashboard.clockAdvances 0 events = true →
  Dashboard.selectedUpload (Dashboard.run events) = Some upload →
  Dashboard.processingUploadId (Dashboard.run events) = None →
  ∃ k : nat,
    Dashboard.uploads (Dashboard.run events) !! k = Some upload
    ∧ Dashboard.uploads
        (Dashboard.run (events ++ [Dashboard.RunClicked; Dashboard.Resolved]))
      = <[k := {| Dashboard.id := Dashboard.id upload;
                  Dashboard.name := Dashboard.name upload;
                  Dashboard.imageUrl := Dashboard.imageUrl upload;
                  Dashboard.highlights := Dashboard.FAKE_HIGHLIGHTS |}]>
          (Dashboard.uploads (Dashboard.run events))
    ∧ Dashboard.selectedId
        (Dashboard.run (events ++ [Dashboard.RunClicked; Dashboard.Resolved]))
      = Dashboard.selectedId (Dashboard.run events)
    ∧ Dashboard.processingUploadId
        (Dashboard.run (events ++ [Dashboard.RunClicked; Dashboard.Resolved]))
      = None.
Proof.
  intros Hclock Hupload Hidle.
  assert (NoDup (Dashboard.id <$> Dashboard.uploads (Dashboard.run events)))
    as Hnodup.
  { apply (stampedBefore_steps events 0%Z); [done | | done].
    split; [apply NoDup_nil_2 | apply Forall_nil_2]. }
  rewrite !run_app, (run_then_resolve _ upload Hupload Hidle).
  unfold Dashboard.runProcessing_resume, Dashboard.runProcessing_start.
  cbn [Dashboard.uploads Dashboard.selectedId Dashboard.processingUploadId].
  unfold Dashboard.selectedUpload in Hupload.
  destruct (Dashboard.selectedId (Dashboard.run events)) as [selected |]; [| done].
  apply find_some in Hupload as [Hin _].
  apply list_elem_of_In, list_elem_of_lookup_1 in Hin as [k Hk].
  exists k. split; [done |]. split; [| done].
  rewrite normalizeHighlights_FAKE_HIGHLIGHTS.
  apply (fmap_update_insert
           (λ other, {| Dashboard.id := Dashboard.id other;
                        Dashboard.name := Dashboard.name other;
                        Dashboard.imageUrl := Dashboard.imageUrl other;
                        Dashboard.highlights := Dashboard.FAKE_HIGHLIGHTS |})
           _ k upload Hnodup Hk).
Qed.

Lemma run_updates_selected_witness :
  let scan := {| Dashboard.fileName := "scan.png"; Dashboard.objectUrl := "blob:1" |} in
  let events := [Dashboard.FilesChosen [scan] (λ _, 1700000000000%Z)] in
  ∃ k : nat,
    Dashboard.uploads (Dashboard.run events) !! k
    = Some {| Dashboard.id := "1700000000000-0"; Dashboard.name := "scan.png";
              Dashboard.imageUrl := "blob:1"; Dashboard.highlights := [] |}
    ∧ Dashboard.uploads
        (Dashboard.run (events ++ [Dashboard.RunClicked; Dashboard.Resolved]))
      = <[k := {| Dashboard.id := "1700000000000-0"; Dashboard.name := "scan.png";
                  Dashboard.imageUrl := "blob:1";
                  Dashboard.highlights := Dashboard.FAKE_HIGHLIGHTS |}]>
          (Dashboard.uploads (Dashboard.run events))
    ∧ Dashboard.selectedId
        (Dashboard.run (events ++ [Dashboard.RunClicked; Dashboard.Resolved]))
      = Dashboard.selectedId (Dashboard.run events)
    ∧ Dashboard.processingUploadId
        (Dashboard.run (events ++ [Dashboard.RunClicked; Dashboard.Resolved]))
      = None.
Proof.
  intros scan events.
  apply (run_updates_selected events
           {| Dashboard.id := "1700000000000-0"; Dashboard.name := "scan.png";
              Dashboard.imageUrl := "blob:1"; Dashboard.highlights := [] |});
    reflexivity.
Defined.

(** ** The identifiers of the mapping before the grouping *)

Lemma Legacy_mentionHighlight_id (fieldLabel fieldKey : string)
    (byTopLeft : gmap string OcrWord) (pageWidth pageHeight : number)
    (index : nat) (value : Legacy.FieldMatch) (h : Highlight) :
  Legacy.mentionHighlight fieldLabel fieldKey byTopLeft pageWidth pageHeight
    index value = Some h →
  id h = "h-" +:+ fieldKey +:+ "-" +:+ Number_toString (of_Z (Z.of_nat index)).
Proof.
  unfold Legacy.mentionHighlight.
  destruct (byTopLeft !! _); [| done]. by intros [= <-].
Qed.

(** X20. In the mapping before the grouping, every highlight is that of a
    mention of the list, its identifier names the position of the mention
    in the list, and so the identifiers of one list differ from one
    another, whatever the mentions are. *)
Theorem legacy_ids_unique (fieldLabel fieldKey : string)
    (values : list Legacy.FieldMatch) (ocr : list OcrWord)
    (pageWidth pageHeight : number) :
  NoDup (id <$> Legacy.mapFieldListToHighlights fieldLabel fieldKey values ocr
                  pageWidth pageHeight)
  ∧ Forall (λ h, ∃ (index : nat) (value : Legacy.FieldMatch),
              values !! index = Some value
              ∧ Legacy.mentionHighlight fieldLabel fieldKey (wordByTopLeft ocr)
                  pageWidth pageHeight index value = Some h)
      (Legacy.mapFieldListToHighlights fieldLabel fieldKey values ocr
         pageWidth pageHeight).
Proof.
  induction values as [| value values [IHn IHf]] using rev_ind.
  { split; [apply NoDup_nil_2 | apply Forall_nil_2]. }
  rewrite Legacy_mapFieldListToHighlights_snoc.
  assert (Forall (λ h, ∃ (index : nat) (value0 : Legacy.FieldMatch),
                    (values ++ [value])%list !! index = Some value0
                    ∧ Legacy.mentionHighlight fieldLabel fieldKey (wordByTopLeft ocr)
                        pageWidth pageHeight index value0 = Some h)
            (Legacy.mapFieldListToHighlights fieldLabel fieldKey values ocr
               pageWidth pageHeight)) as Hprefix.
  { eapply Forall_impl; [exact IHf |].
    intros h (index & value0 & Hindex & Hh). exists index, value0.
    split; [| done]. by apply lookup_app_l_Some. }
  destruct (Legacy.mentionHighlight _ _ _ _ _ (length values) value)
    as [h |] eqn:Hh.
  - split.
    + rewrite fmap_app. apply NoDup_app. split; [done |]. split; [| apply NoDup_singleton].
      intros i Hi Hnew. apply list_elem_of_fmap in Hi as (h' & -> & Hh').
      simpl in Hnew. apply list_elem_of_singleton in Hnew.
      rewrite Forall_forall in IHf.
      destruct (IHf _ Hh') as (index & value0 & Hindex & Hh0).
      apply lookup_lt_Some in Hindex.
      rewrite (Legacy_mentionHighlight_id _ _ _ _ _ _ _ _ Hh0),
        (Legacy_mentionHighlight_id _ _ _ _ _ _ _ _ Hh) in Hnew.
      do 3 apply String.app_inj in Hnew.
      apply Number_toString_of_Z_inj in Hnew. lia.
    + apply Forall_app. split; [done |]. apply Forall_singleton.
      exists (length values), value. split; [| done].
      by rewrite lookup_app_r, Nat.sub_diag.
  - rewrite app_nil_r. by split.
Qed.

(** ** One line per word *)

Lemma splitLines_single (s : string) :
  count_char "010"%char s = 0%nat → splitLines s = [s].
Proof.
  induction s as [| c s IH]; simpl; [done |].
  destruct (decide (c = "010"%char)); [done |].
  intros H. by rewrite IH.
Qed.

(** A text without line feed, a line feed and a rest: the text is the first
    line, the lines of the rest follow. *)
Lemma splitLines_app_line (s t : string) :
  count_char "010"%char s = 0%nat →
  splitLines (s +:+ String "010"%char t) = s :: splitLines t.
Proof.
  induction s as [| c s IH].
  - intros _. change (splitLines (String "010"%char t) = "" :: splitLines t).
    simpl. by destruct (decide ("010"%char = "010"%char)).
  - change (count_char "010"%char (String c s) = 0%nat →
            splitLines (String c (s +:+ String "010"%char t))
            = String c s :: splitLines t).
    simpl. destruct (decide (c = "010"%char)); [done |].
    intros H. by rewrite IH.
Qed.

Lemma splitLines_join (ls : list string) :
  ls ≠ [] → Forall (λ l, count_char "010"%char l = 0%nat) ls →
  splitLines (join newline ls) = ls.
Proof.
  induction ls as [| l ls IH]; [done |]. intros _ Hls.
  apply Forall_cons in Hls as [Hl Hls].
  destruct ls as [| l' ls]; [by apply splitLines_single |].
  rewrite join_cons_cons.
  change (l +:+ newline +:+ join newline (l' :: ls))
    with (l +:+ String "010"%char (join newline (l' :: ls))).
  rewrite splitLines_app_line by done. by rewrite IH.
Qed.

(** C7, amended. For every ordered list of words whose contents hold no
    line feed, the serializer yields exactly one line per word: split at
    its line feeds, the text is the list of the lines [content:x, y] of the
    words, x and y being polygon[0] and polygon[1] (0 where undefined), in
    the order of the list, none left out and none merged; the text is the
    contract's serialization, and it is empty for no word.  Being a
    function of the word list alone, it is the same text whenever the same
    list is serialized. *)
Theorem toTopLeftOcrLines_one_line_per_word (words : list OcrWord) :
  Forall singleLine words →
  toTopLeftOcrLines words = serializedLines words
  ∧ (words = [] → toTopLeftOcrLines words = "")
  ∧ (words ≠ [] →
     splitLines (toTopLeftOcrLines words)
     = (λ word, content word +:+ ":"
                  +:+ Number_toString (default 0%num (polygon word !! 0%nat)) +:+ ", "
                  +:+ Number_toString (default 0%num (polygon word !! 1%nat)))
         <$> words).
Proof.
  intros Hwords. split; [apply toTopLeftOcrLines_recursion |].
  split; [by intros -> |]. intros Hne.
  unfold toTopLeftOcrLines. apply splitLines_join.
  - by destruct words.
  - apply Forall_fmap. eapply Forall_impl; [exact Hwords |].
    intros word Hword.
    change (count_char "010"%char (ocrLine word) = 0%nat).
    by rewrite line_feed_ocrLine.
Qed.

Lemma toTopLeftOcrLines_one_line_per_word_witness :
  Forall singleLine sample_ocr
  ∧ splitLines (toTopLeftOcrLines sample_ocr) = ocrLine <$> sample_ocr.
Proof.
  split; [repeat constructor |].
  destruct (toTopLeftOcrLines_one_line_per_word sample_ocr) as (_ & _ & Hlines);
    [repeat constructor |].
  by apply Hlines.
Defined.

(** C7 as stated fails: the content of a word may hold a line feed, which
    is written as it is; the text of that one word has two lines, and it is
    the text of two other words. *)
Lemma toTopLeftOcrLines_one_line_per_word_counterexample :
  splitLines (toTopLeftOcrLines [two_line_word]) = ["A:1, 2"; "B:3, 4"]
  ∧ length (splitLines (toTopLeftOcrLines [two_line_word])) ≠ length [two_line_word]
  ∧ toTopLeftOcrLines [two_line_word]
    = toTopLeftOcrLines [word_of "A" [1; 2; 10; 2; 10; 12; 1; 12]%Z;
                         word_of "B" [3; 4; 30; 4; 30; 14; 3; 14]%Z].
Proof. by vm_compute. Qed.
